(** * KPFM Bayesian inference utilities: a shallow embedding

    Source: [pycroscopy/analysis/kpfm_bayesian/kpfm_bayesian_utils.py].

    Numbers are the real numbers of the Standard Library: every float of
    the program is read as the real it approximates.  Where the program
    itself produces a non-finite float on purpose ([np.inf]) or by a
    division whose denominator can be zero, the value is carried by
    [npfloat], which adds the IEEE specials to the reals.

    numpy arrays of rank two are modelled by their shape and their entry
    function; routines of numpy and scipy that the program calls but that
    are not part of the repository ([expm], [inv], [lstsq], [eig],
    [minimize], [polyfit], the random generator) are Section variables.
    Calls that can raise return a [result]: the shape checks of
    [np.matmul], [np.concatenate] and broadcasting, the exceptions of
    the linear-algebra routines, and the solver on arrays that are not
    finite.  Arrays of 64-bit integers wrap around. *)

From Stdlib Require Import String.
From Stdlib Require Import ZArith Reals Lra Lia List Bool Arith.
Import ListNotations.

Open Scope R_scope.

(** ** Python calls that may raise *)

Inductive exn : Type :=
| NameError (name : string)
| KeyError (key : string)
| OtherError (what : string).

(** The outcome of a call: a value, or an exception that leaves it. *)
Inductive result (A : Type) : Type :=
| Ok (a : A)
| Raise (e : exn).
Arguments Ok {A}.
Arguments Raise {A}.

Definition bind {A B : Type} (m : result A) (k : A -> result B) : result B :=
  match m with
  | Ok a => k a
  | Raise e => Raise e
  end.

Notation "x <- m ;; k" := (bind m (fun x => k))
  (at level 61, m at next level, right associativity).

(** ** numpy arrays of rank two *)

Record matrix : Type := mkMatrix {
  nrows : nat;
  ncols : nat;
  at_ : nat -> nat -> R
}.

(** Two arrays are the same array when they have the same shape and the
    same entries inside that shape. *)
Definition mat_eq (A B : matrix) : Prop :=
  nrows A = nrows B /\ ncols A = ncols B /\
  forall r c, (r < nrows A)%nat -> (c < ncols A)%nat -> at_ A r c = at_ B r c.

(** [np.zeros((r, c))] *)
Definition zeros (r c : nat) : matrix := mkMatrix r c (fun _ _ => 0).

(** [np.eye(n)] *)
Definition eye (n : nat) : matrix :=
  mkMatrix n n (fun r c => if Nat.eqb r c then 1 else 0).

(** Sum of [f 0 .. f (n-1)]. *)
Fixpoint rsum (n : nat) (f : nat -> R) : R :=
  match n with
  | O => 0
  | S k => rsum k f + f k
  end.

(** The entries of [np.matmul(A, B)] for arrays whose inner dimensions
    agree; [np_matmul] below is the call with its check. *)
Definition matmul (A B : matrix) : matrix :=
  mkMatrix (nrows A) (ncols B)
    (fun r c => rsum (ncols A) (fun k => at_ A r k * at_ B k c)).

(** [A.T] *)
Definition transpose (A : matrix) : matrix :=
  mkMatrix (ncols A) (nrows A) (fun r c => at_ A c r).

(** [A + B] on arrays of one shape *)
Definition madd (A B : matrix) : matrix :=
  mkMatrix (nrows A) (ncols A) (fun r c => at_ A r c + at_ B r c).

(** [A - B] on arrays of one shape *)
Definition msub (A B : matrix) : matrix :=
  mkMatrix (nrows A) (ncols A) (fun r c => at_ A r c - at_ B r c).

(** [s * A] and [A * s] for a scalar [s] *)
Definition mscale (s : R) (A : matrix) : matrix :=
  mkMatrix (nrows A) (ncols A) (fun r c => s * at_ A r c).

(** A column vector [(N, 1)] from its entries. *)
Definition column (v : list R) : matrix :=
  mkMatrix (length v) 1 (fun r _ => nth r v 0).

(** [np.diag(v)] for a one-dimensional [v] *)
Definition diag (v : list R) : matrix :=
  mkMatrix (length v) (length v)
    (fun r c => if Nat.eqb r c then nth r v 0 else 0).

(** [A[::2, :]] : every other row, starting with row 0 *)
Definition even_rows (A : matrix) : matrix :=
  mkMatrix (Nat.div2 (S (nrows A))) (ncols A) (fun r c => at_ A (2 * r) c).

(** [A[1::2, :]] : every other row, starting with row 1 *)
Definition odd_rows (A : matrix) : matrix :=
  mkMatrix (Nat.div2 (nrows A)) (ncols A) (fun r c => at_ A (2 * r + 1) c).

(** [A[start:stop:step, col] = v] for a one-dimensional [v]: row
    [start + k*step] of column [col] receives [v[k]], for the rows below
    [stop] that the array has. *)
Definition set_col_slice (A : matrix) (start stop step col : nat)
    (v : nat -> R) : matrix :=
  mkMatrix (nrows A) (ncols A)
    (fun r c =>
       if (Nat.eqb c col && Nat.leb start r && Nat.ltb r (Nat.min stop (nrows A))
           && Nat.eqb ((r - start) mod step) 0)%bool
       then v ((r - start) / step)%nat
       else at_ A r c).

(** The rows that [Bn[1:2*N+1:2, i] = ...] writes, in an array of [2*N]
    rows. *)
Definition written (N r : nat) : bool :=
  (Nat.leb 1 r && Nat.ltb r (Nat.min (2 * N + 1) (2 * N))
   && Nat.eqb ((r - 1) mod 2) 0)%bool.

(** ** Basis Builder *)

(** [_B_phin(phi, w, tt, n)].  [tt] is a column vector, given by its
    entries; [np.squeeze(np.sin(w*tt + phi)**i)] is the vector of the
    [i]-th powers. *)
Definition sin_pow (phi w : R) (tt : list R) (i : nat) : nat -> R :=
  fun k => (sin (w * nth k tt 0 + phi)) ^ i.

Definition _B_phin (phi w : R) (tt : list R) (n : nat) : matrix :=
  let N := length tt in
  fold_left
    (fun Bn i => set_col_slice Bn 1 (2 * N + 1) 2 i (sin_pow phi w tt i))
    (seq 0 (n + 1))
    (zeros (2 * N) (n + 1)).

(** [A[r0:r1, c0:c1] = X] : the block of [A] inside the slice receives
    [X], entry by entry. *)
Definition set_block (A : matrix) (r0 r1 c0 c1 : nat) (X : matrix) : matrix :=
  mkMatrix (nrows A) (ncols A)
    (fun r c =>
       if (Nat.leb r0 r && Nat.ltb r (Nat.min r1 (nrows A))
           && Nat.leb c0 c && Nat.ltb c (Nat.min c1 (ncols A)))%bool
       then at_ X (r - r0) (c - c0)
       else at_ A r c).

(** [A[:, ::2]] and [A[:, 1::2]] *)
Definition even_cols (A : matrix) : matrix :=
  mkMatrix (nrows A) (Nat.div2 (S (ncols A))) (fun r c => at_ A r (2 * c)).

Definition odd_cols (A : matrix) : matrix :=
  mkMatrix (nrows A) (Nat.div2 (ncols A)) (fun r c => at_ A r (2 * c + 1)).

(** [np.fliplr(A)] *)
Definition fliplr (A : matrix) : matrix :=
  mkMatrix (nrows A) (ncols A) (fun r c => at_ A r (ncols A - 1 - c)).

(** [A[:, ::2] = X] and [A[:, 1::2] = X] *)
Definition set_even_cols (A X : matrix) : matrix :=
  mkMatrix (nrows A) (ncols A)
    (fun r c => if Nat.even c then at_ X r (c / 2)%nat else at_ A r c).

Definition set_odd_cols (A X : matrix) : matrix :=
  mkMatrix (nrows A) (ncols A)
    (fun r c => if Nat.odd c then at_ X r (c / 2)%nat else at_ A r c).

(** [A[:, -k:]] for [k >= 1] : the last [k] columns (all of them when
    the array has fewer). *)
Definition last_cols (A : matrix) (k : nat) : matrix :=
  let k' := Nat.min k (ncols A) in
  mkMatrix (nrows A) k' (fun r c => at_ A r (ncols A - k' + c)).

(** ** State Transition Assembler ([BayesianInference], lines 160-191) *)

(** [L = np.array([[0, 1], [-1, -Qi]])] *)
Definition L_gen (Qi : R) : matrix :=
  mkMatrix 2 2
    (fun r c =>
       match r, c with
       | O, O => 0
       | O, S O => 1
       | S O, O => -1
       | S O, S O => - Qi
       | _, _ => 0
       end).

Section Transition.

(** [scipy.linalg.expm] *)
Variable expm : matrix -> matrix.

Variable Qi h : R.

(** [spla.expm(L*h*(i+1))], written for the step count [s = i+1]. *)
Definition step_block (s : nat) : matrix :=
  expm (mscale (INR s) (mscale h (L_gen Qi))).

(** [A = np.zeros((2, 2*N))] followed by
    [for i in range(N): A[:, 2*i:2*(i+1)] = spla.expm(L*h*(i+1))] *)
Definition build_A (N : nat) : matrix :=
  fold_left
    (fun A i => set_block A 0 (nrows A) (2 * i) (2 * (i + 1)) (step_block (i + 1)))
    (seq 0 N)
    (zeros 2 (2 * N)).

(** Lines 181-185: the per-step responses, column-reversed. *)
Definition build_A1 (A : matrix) : matrix :=
  let a1 := fliplr (even_cols A) in
  let a2 := fliplr (odd_cols A) in
  let A1 := mscale 0 A in
  let A1 := set_even_cols A1 a1 in
  set_odd_cols A1 a2.

(** [AA = np.zeros((2*N, 2*N))] followed by
    [for j in range(1, N): AA[2*j:2*(j+1), :2*j] = A1[:, -2*j:]] *)
Definition build_AA (N : nat) : matrix :=
  let A1 := build_A1 (build_A N) in
  fold_left
    (fun AA j => set_block AA (2 * j) (2 * (j + 1)) 0 (2 * j) (last_cols A1 (2 * j)))
    (seq 1 (N - 1))
    (zeros (2 * N) (2 * N)).

(** Lines 190-191: [a1 = A[:, ::2]], [a2 = A[:, 1::2]] *)
Definition build_a1 (N : nat) : matrix := even_cols (build_A N).
Definition build_a2 (N : nat) : matrix := odd_cols (build_A N).

End Transition.

(** ** Floats that need not be finite *)

(** A float of the program: a real, or one of the IEEE specials. *)
Inductive npfloat : Type :=
| Fin (x : R)
| PInf
| NInf
| NaN.

(** [x <= y] on real numbers, as the boolean the program branches on. *)
Definition Rleb (x y : R) : bool := if Rle_dec x y then true else false.
Definition Rltb (x y : R) : bool := if Rlt_dec x y then true else false.
Definition Reqb (x y : R) : bool := if Req_dec_T x y then true else false.

(** ** More array operations *)

(** [np.ones((r, c))] *)
Definition ones (r c : nat) : matrix := mkMatrix r c (fun _ _ => 1).

(** A ufunc applied entry by entry, e.g. [np.log(A)]. *)
Definition mmap (f : R -> R) (A : matrix) : matrix :=
  mkMatrix (nrows A) (ncols A) (fun r c => f (at_ A r c)).

(** [np.sum(A)] : the sum of all entries *)
Definition msum (A : matrix) : R :=
  rsum (nrows A) (fun r => rsum (ncols A) (fun c => at_ A r c)).

(** [np.sum(v)] for a one-dimensional [v] *)
Definition vsum (v : list R) : R := fold_right Rplus 0 v.

(** [s + A] and [A + s] for a scalar [s] (broadcast) *)
Definition sadd (s : R) (A : matrix) : matrix :=
  mkMatrix (nrows A) (ncols A) (fun r c => s + at_ A r c).

(** [A.size] *)
Definition size (A : matrix) : nat := (nrows A * ncols A)%nat.

(** [A.reshape((A.size, 1), order='F')] : the columns of [A], one under
    the other. *)
Definition reshape_F_col (A : matrix) : matrix :=
  mkMatrix (size A) 1
    (fun r _ => at_ A (r mod nrows A)%nat (r / nrows A)%nat).

(** [np.concatenate((A, B), axis=1)] for arrays with the same number of
    rows. *)
Definition hstack (A B : matrix) : matrix :=
  mkMatrix (nrows A) (ncols A + ncols B)
    (fun r c => if Nat.ltb c (ncols A) then at_ A r c else at_ B r (c - ncols A)).

(** [float(A)] for an array with exactly one entry. *)
Definition float_ (A : matrix) : R := at_ A 0 0.

(** ** Design matrix and posterior *)

(** The hyperparameter vector [pp]: [pp[0]], [pp[1]], [pp[2]]. *)
Record hyper : Type := mkHyper { pp_sig : R; pp_gam : R; pp_phi : R }.

(** ** Arithmetic of floats that need not be finite *)

(** [a / b] as numpy computes it on floats: a zero denominator gives NaN
    or an infinity (with a warning), not an exception.  Zero is +0. *)
Definition np_div (a b : npfloat) : npfloat :=
  match a, b with
  | NaN, _ | _, NaN => NaN
  | Fin x, Fin y =>
      if Reqb y 0
      then (if Reqb x 0 then NaN else if Rltb 0 x then PInf else NInf)
      else Fin (x / y)
  | Fin _, (PInf | NInf) => Fin 0
  | PInf, Fin y => if Rltb y 0 then NInf else PInf
  | NInf, Fin y => if Rltb y 0 then PInf else NInf
  | (PInf | NInf), (PInf | NInf) => NaN
  end.

Definition np_mul (a b : npfloat) : npfloat :=
  match a, b with
  | NaN, _ | _, NaN => NaN
  | Fin x, Fin y => Fin (x * y)
  | Fin x, PInf | PInf, Fin x =>
      if Reqb x 0 then NaN else if Rltb 0 x then PInf else NInf
  | Fin x, NInf | NInf, Fin x =>
      if Reqb x 0 then NaN else if Rltb 0 x then NInf else PInf
  | PInf, PInf | NInf, NInf => PInf
  | PInf, NInf | NInf, PInf => NInf
  end.

Definition np_sub (a b : npfloat) : npfloat :=
  match a, b with
  | NaN, _ | _, NaN => NaN
  | Fin x, Fin y => Fin (x - y)
  | Fin _, PInf => NInf
  | Fin _, NInf => PInf
  | PInf, PInf | NInf, NInf => NaN
  | PInf, _ => PInf
  | NInf, _ => NInf
  end.

(** A 64-bit signed integer: the value that wraps around. *)
Definition wrap64 (z : Z) : Z :=
  ((z + 2 ^ 63) mod 2 ^ 64 - 2 ^ 63)%Z.

(** [np.diag(np.concatenate((np.array([1/sigi/sigi, 1/sigi/sigi]),
                             1/sig/sig*(np.arange(1, n+2)**aa))))].
    [np.arange(1, n+2)] is an array of 64-bit integers and [aa] an
    integer that is not negative, so the powers wrap around. *)
Definition prior_precision (sigi sig : R) (n aa : nat) : matrix :=
  diag ([1 / sigi / sigi; 1 / sigi / sigi]
        ++ map (fun k => 1 / sig / sig * IZR (wrap64 (Z.of_nat k ^ Z.of_nat aa)))
               (seq 1 (n + 1))).

(** [1/gam/gam*np.eye(N)] *)
Definition noise_precision (gam : R) (N : nat) : matrix :=
  mscale (1 / gam / gam) (eye N).

(** [BB = np.matmul(AA, B)*h], then
    [CC1 = np.concatenate((a1.reshape((a1.size, 1), order='F'),
                           a2.reshape((a2.size, 1), order='F'), BB), axis=1)]
    and [CC = CC1[::2, :]]: the entries, for arrays whose shapes fit. *)
Definition design_CC1 (AA a1 a2 B : matrix) (h : R) : matrix :=
  let BB := mscale h (matmul AA B) in
  hstack (hstack (reshape_F_col a1) (reshape_F_col a2)) BB.

Definition design_CC (AA a1 a2 B : matrix) (h : R) : matrix :=
  even_rows (design_CC1 AA a1 a2 B h).

(** ** Array operations that check shapes *)

(** [np.matmul(A, B)] as the program calls it: [ValueError] when the
    number of columns of [A] is not the number of rows of [B]. *)
Definition np_matmul (A B : matrix) : result matrix :=
  if Nat.eqb (ncols A) (nrows B)
  then Ok (matmul A B)
  else Raise (OtherError "ValueError").

(** [np.concatenate((A, B), axis=1)]: [ValueError] when the numbers of
    rows differ. *)
Definition np_hstack (A B : matrix) : result matrix :=
  if Nat.eqb (nrows A) (nrows B)
  then Ok (hstack A B)
  else Raise (OtherError "ValueError").

(** The index that broadcasting reads along an axis of length [len]. *)
Definition bidx (len i : nat) : nat := if Nat.eqb len 1 then 0%nat else i.

(** [A + B] with numpy's broadcasting: along each axis the lengths are
    equal or one of them is 1, else [ValueError]. *)
Definition np_madd (A B : matrix) : result matrix :=
  if (Nat.eqb (nrows A) (nrows B) && Nat.eqb (ncols A) (ncols B))%bool
  then Ok (madd A B)
  else if ((Nat.eqb (nrows A) 1 || Nat.eqb (nrows B) 1 || Nat.eqb (nrows A) (nrows B))
           && (Nat.eqb (ncols A) 1 || Nat.eqb (ncols B) 1
               || Nat.eqb (ncols A) (ncols B)))%bool
  then Ok (mkMatrix
             (if Nat.eqb (nrows A) 1 then nrows B else nrows A)
             (if Nat.eqb (ncols A) 1 then ncols B else ncols A)
             (fun r c => at_ A (bidx (nrows A) r) (bidx (ncols A) c)
                         + at_ B (bidx (nrows B) r) (bidx (ncols B) c)))
  else Raise (OtherError "ValueError").

(** Lines 122-127 and 217-224 with the checks that numpy makes. *)
Definition np_design_CC (AA a1 a2 B : matrix) (h : R) : result matrix :=
  AAB <- np_matmul AA B ;;
  let BB := mscale h AAB in
  left <- np_hstack (reshape_F_col a1) (reshape_F_col a2) ;;
  CC1 <- np_hstack left BB ;;
  Ok (even_rows CC1).

(** The squared Frobenius norm, [np.linalg.norm(A)**2]. *)
Definition frob2 (A : matrix) : R := msum (mmap (fun x => x * x) A).


(** [np.log(x)] on a float: [-inf] at zero and NaN below, with a warning
    and no exception. *)
Definition np_log (x : R) : npfloat :=
  if Rltb 0 x then Fin (ln x) else if Reqb x 0 then NInf else NaN.

(** [a + b] on floats *)
Definition np_add (a b : npfloat) : npfloat :=
  match a, b with
  | NaN, _ | _, NaN => NaN
  | Fin x, Fin y => Fin (x + y)
  | PInf, NInf | NInf, PInf => NaN
  | PInf, _ | _, PInf => PInf
  | NInf, _ | _, NInf => NInf
  end.

(** [np.sum(np.log(v))] for real eigenvalues [v] *)
Definition np_sum_log (v : list R) : npfloat :=
  fold_right (fun x acc => np_add (np_log x) acc) (Fin 0) v.

(** What [np.linalg.eig(Sig)[0]] holds: real numbers, or an array of
    complex type when some eigenvalue is not real. *)
Inductive eigvals : Type :=
| RealEig (vals : list R)
| ComplexEig.

Section Posterior.

(** [np.linalg.inv(A)], where the flag says whether the entries of [A]
    are all finite; [np.linalg.lstsq(A, B, rcond)[0]] on arrays with
    finite entries; [np.linalg.eig(A)[0]].  Each may raise
    [LinAlgError]. *)
Variable inv : bool -> matrix -> result matrix.
Variable lstsq : matrix -> matrix -> R -> result matrix.
Variable eig : matrix -> result eigvals.

(** [float(out)] when some eigenvalue is not real: numpy's complex
    logarithm and its conversion of a complex array to a float. *)
Variable float_complex : matrix -> result npfloat.

(** [Sig, resid, rank, s = np.linalg.lstsq(
       P0 + np.matmul(np.matmul(CC.T, GAI), CC), np.eye(M), rcond=-1)].
    [finite] says that [P0] and [GAI] hold finite entries; on an array
    with [inf] or [nan] the solver raises [LinAlgError]. *)
Definition posterior_Sig (finite : bool) (P0 GAI CC : matrix) (M : nat)
    : result matrix :=
  CtG <- np_matmul (transpose CC) GAI ;;
  CtGC <- np_matmul CtG CC ;;
  A <- np_madd P0 CtGC ;;
  if finite then lstsq A (eye M) (- 1) else Raise (OtherError "LinAlgError").

(** [m_phi = np.matmul(Sig, np.matmul(np.matmul(CC.T, GAI), y)
                            + np.matmul(P0, m0))] *)
Definition posterior_mean (Sig P0 GAI CC y m0 : matrix) : result matrix :=
  CtG <- np_matmul (transpose CC) GAI ;;
  CtGy <- np_matmul CtG y ;;
  P0m0 <- np_matmul P0 m0 ;;
  s <- np_madd CtGy P0m0 ;;
  np_matmul Sig s.

(** ** Marginal-likelihood objective *)

(** Lines 114-131 of [_mmlenn]: everything before the test of the phase.
    [sigi] is a Python number, so [1/sigi] raises at zero; [sig] and
    [gam] come from a numpy array, so [1/sig/sig] and [1/gam/gam] are
    [inf] at zero, with a warning.  The result [C0] of [np.linalg.inv]
    is not used, an exception of it is. *)
Definition mmlenn_posterior (pp : hyper) (w : R) (tt : list R) (AA a1 a2 y : matrix)
    (n M : nat) (h : R) (m0 : matrix) (sigi : R) (aa : nat)
    : result (matrix * matrix * matrix) :=
  let phi := pp_phi pp in
  let sig := pp_sig pp in
  let gam := pp_gam pp in
  let N := size y in
  if Reqb sigi 0 then Raise (OtherError "ZeroDivisionError")
  else
    let finite := negb (Reqb sig 0 || Reqb gam 0) in
    let P0 := prior_precision sigi sig n aa in
    C0 <- inv (negb (Reqb sig 0)) P0 ;;
    let GAI := noise_precision gam N in
    let B := _B_phin phi w tt n in
    CC <- np_design_CC AA a1 a2 B h ;;
    Sig <- posterior_Sig finite P0 GAI CC M ;;
    m_phi <- posterior_mean Sig P0 GAI CC y m0 ;;
    Ok (Sig, GAI, CC).

(** Lines 135-137: the feasible branch.  [float(out)] raises [TypeError]
    for an array with more than one entry. *)
Definition mmlenn_out (sig gam : R) (N : nat) (Sig GAI CC y : matrix)
    : result npfloat :=
  ev <- eig Sig ;;
  yG <- np_matmul (transpose y) GAI ;;
  Q1 <- np_matmul yG y ;;
  SC <- np_matmul Sig (transpose CC) ;;
  Gy <- np_matmul GAI y ;;
  SCGy <- np_matmul SC Gy ;;
  CtG <- np_matmul (transpose CC) GAI ;;
  CtGy <- np_matmul CtG y ;;
  Q2 <- np_matmul (transpose SCGy) CtGy ;;
  match ev with
  | ComplexEig => float_complex Sig
  | RealEig vals =>
      if negb (Nat.eqb (size Q1) 1) then Raise (OtherError "TypeError")
      else
        Ok (np_add
              (np_sub
                 (np_add
                    (np_add (Fin (msum (mmap ln (mscale (gam ^ 2) (ones N 1)))))
                            (np_sum_log vals))
                    (Fin (float_ Q1)))
                 (Fin (float_ Q2)))
              (Fin (0 * sig ^ 2 / 200)))
  end.

(** [_mmlenn(pp, w, tt, AA, a1, a2, y, n, M, h, m0, sigi, aa)] *)
Definition _mmlenn (pp : hyper) (w : R) (tt : list R) (AA a1 a2 y : matrix)
    (n M : nat) (h : R) (m0 : matrix) (sigi : R) (aa : nat) : result npfloat :=
  post <- mmlenn_posterior pp w tt AA a1 a2 y n M h m0 sigi aa ;;
  let '(Sig, GAI, CC) := post in
  if (Rleb (- PI) (pp_phi pp) && Rleb (pp_phi pp) 0)%bool
  then mmlenn_out (pp_sig pp) (pp_gam pp) (size y) Sig GAI CC y
  else Ok PInf.

End Posterior.

(** ** Comparisons of floats *)

(** [a < b] and [a <= b] as IEEE defines them: false when either side is
    NaN. *)
Definition np_ltb (a b : npfloat) : bool :=
  match a, b with
  | NaN, _ | _, NaN => false
  | Fin x, Fin y => Rltb x y
  | NInf, NInf => false
  | NInf, _ => true
  | _, NInf => false
  | PInf, _ => false
  | Fin _, PInf => true
  end.

Definition np_leb (a b : npfloat) : bool :=
  match a, b with
  | NaN, _ | _, NaN => false
  | Fin x, Fin y => Rleb x y
  | NInf, _ => true
  | _, NInf => false
  | _, PInf => true
  | PInf, Fin _ => false
  end.

(** ** Hyperparameter Optimizer ([BayesianInference], lines 235-279) *)

(** The fields of [scipy.optimize.OptimizeResult] that the program
    reads. *)
Record OptimizeResult : Type := mkOptimizeResult {
  opt_x : hyper;
  opt_fun : npfloat
}.

(** The keyword arguments of the calls in the restart loop:
    [options={"maxiter": ...}, tol=...]. *)
Record minimize_kwargs : Type := mkKwargs { kw_maxiter : Z; kw_tol : R }.

(** What the loop tracks: the state of the global random generator, the
    start vector [pp0], and the best result so far. *)
Record search_state (rng : Type) : Type := mkSearch {
  st_rng : rng;
  st_pp0 : hyper;
  st_pp1g : hyper;
  st_fvalg : npfloat
}.
Arguments mkSearch {rng}.
Arguments st_rng {rng}.
Arguments st_pp0 {rng}.
Arguments st_pp1g {rng}.
Arguments st_fvalg {rng}.

Section Optimizer.

(** [scipy.optimize.minimize(fun, x0, **kwargs)] *)
Variable minimize : (hyper -> npfloat) -> hyper -> option minimize_kwargs -> OptimizeResult.

(** numpy's global random generator: [np.random.seed(sd)],
    [np.random.randn(1, 2)] and [np.random.rand()], each draw returning
    the next state. *)
Variable rng : Type.
Variable seed : Z -> rng.
Variable randn_1_2 : rng -> (R * R) * rng.
Variable rand : rng -> R * rng.

(** The objective, [lambda pp: _mmlenn(pp, w, tt, AA, a1, a2, y, n, M,
    h, m0, sigi, aa)]. *)
Variable objective : hyper -> npfloat.

(** [pp0[:2] = np.random.randn(1, 2)**2] then
    [pp0[2] = -np.pi*np.random.rand()] *)
Definition draw_pp0 (g : rng) : hyper * rng :=
  let '((a, b), g1) := randn_1_2 g in
  let '(u, g2) := rand g1 in
  (mkHyper (a ^ 2) (b ^ 2) (- PI * u), g2).

(** Lines 236-259: the seeded first minimization. *)
Definition seeded_result : OptimizeResult * hyper * rng :=
  let g := seed 1 in
  let '(pp0, g') := draw_pp0 g in
  (minimize objective pp0 None, pp0, g').

Definition search_init : search_state rng :=
  let '(optResult, pp0, g) := seeded_result in
  mkSearch g pp0 (opt_x optResult) (opt_fun optResult).

(** The minimization of one pass of the loop, lines 262-271. *)
Definition restart_result (g : rng) : OptimizeResult * hyper * rng :=
  let '(pp0, g') := draw_pp0 g in
  (minimize objective pp0 (Some (mkKwargs (10 ^ 12) (/ 10 ^ 18))), pp0, g').

(** One pass of [for i in range(10)], lines 262-277. *)
Definition restart_step (st : search_state rng) (i : nat) : search_state rng :=
  let '(optResult, pp0, g) := restart_result (st_rng st) in
  if np_ltb (opt_fun optResult) (st_fvalg st)
  then mkSearch g pp0 (opt_x optResult) (opt_fun optResult)
  else mkSearch g pp0 (st_pp1g st) (st_fvalg st).

(** The state after the first [k] passes of the loop. *)
Definition search_after (k : nat) : search_state rng :=
  fold_left restart_step (seq 0 k) search_init.

(** [pp1 = pp1g] after [for i in range(10)]. *)
Definition hyper_search : hyper := st_pp1g (search_after 10).

(** The search as its caller sees it.  Lines 258-279 hold no [raise]
    and no test of [fvalg] against [np.inf]: [pp1] is bound whatever
    the values were. *)
Definition hyper_search_outcome : result hyper := Ok hyper_search.

(** The results of the eleven calls of [minimize], in the order of the
    calls: number 0 is the seeded one, number [i+1] the one of pass [i]
    of the loop. *)
Definition minimization (i : nat) : OptimizeResult :=
  match i with
  | O => fst (fst seeded_result)
  | S j => fst (fst (restart_result (st_rng (search_after j))))
  end.

(** The failure mode as the specification words it: when every one of
    the eleven minimizations reports [+inf], the search does not hand
    a point back as its result. *)
Definition spec_no_feasible_fit_surfaced : Prop :=
  (forall i, (i <= 10)%nat -> opt_fun (minimization i) = PInf) ->
  forall pp, hyper_search_outcome <> Ok pp.


End Optimizer.

(** ** Result Summarizer: fit statistics ([processResults], lines 394-403) *)

(** [A[r0:r1]] : the rows from [r0] up to, not including, [r1]. *)
Definition row_slice (A : matrix) (r0 r1 : nat) : matrix :=
  mkMatrix (Nat.min r1 (nrows A) - r0) (ncols A) (fun r c => at_ A (r0 + r) c).

(** [np.polyval(p, x)] : Horner's rule, [y = zeros_like(x)] then
    [for pv in p: y = y*x + pv], for coefficients [p] of one column. *)
Definition polyval (p x : matrix) : matrix :=
  mkMatrix (nrows x) (ncols x)
    (fun r c =>
       fold_left (fun acc k => acc * at_ x r c + at_ p k 0) (seq 0 (nrows p)) 0).

(** [np.mean(A)] and [np.var(A)] over all entries. *)
Definition np_mean (A : matrix) : npfloat :=
  np_div (Fin (msum A)) (Fin (INR (size A))).

Definition np_var (A : matrix) : npfloat :=
  match np_mean A with
  | Fin mu =>
      np_div (Fin (msum (mmap (fun v => (v - mu) * (v - mu)) A))) (Fin (INR (size A)))
  | _ => NaN
  end.

Section FitStatistics.

(** [np.polyfit(x, y, deg)] for a one-dimensional [x] *)
Variable polyfit : list R -> matrix -> nat -> matrix.

(** [y1 = np.matmul(B[1::2, :], m_phi[2:M+1])] *)
Definition recovered_force (B m_phi : matrix) (M : nat) : matrix :=
  matmul (odd_rows B) (row_slice m_phi 2 (M + 1)).

(** [x1 = Vac * np.sin(w_ang*tt1 + phi)], by the entries of [tt1] *)
Definition drive_voltage (Vac w_ang phi : R) (tt1 : list R) : list R :=
  map (fun t => Vac * sin (w_ang * t + phi)) tt1.

(** [SSresid = sum(yresid**2)] with [yresid = y1 - yfit],
    [yfit = np.polyval(p1, x1)] and [p1 = np.polyfit(x1.T[0], y1, 2)].
    [m_phi] is a column vector, so [y1] has one column and the sum over
    the rows has one entry. *)
Definition SSresid (x1 : list R) (y1 : matrix) : R :=
  let p1 := polyfit x1 y1 2 in
  let yfit := polyval p1 (column x1) in
  let yresid := msub y1 yfit in
  rsum (nrows yresid) (fun r => at_ yresid r 0 ^ 2).

(** [SStotal = (y1.size - 1)*np.var(y1)] *)
Definition SStotal (y1 : matrix) : npfloat :=
  np_mul (Fin (INR (size y1) - 1)) (np_var y1).

(** [rsq = 1 - SSresid/SStotal] *)
Definition rsq (x1 : list R) (y1 : matrix) : npfloat :=
  np_sub (Fin 1) (np_div (Fin (SSresid x1 y1)) (SStotal y1)).

(** The fit-statistics step on the arguments of [processResults]. *)
Definition fit_rsq (Vac w_ang phi : R) (tt1 : list R) (B m_phi : matrix) (M : nat)
    : npfloat :=
  rsq (drive_voltage Vac w_ang phi tt1) (recovered_force B m_phi M).

End FitStatistics.

(** ** The observation window ([BayesianInference], lines 163-171) *)

(** [int(x)] : truncation towards zero. *)
Definition py_int (x : R) : Z :=
  if Rle_dec 0 x then Int_part x else (- Int_part (- x))%Z.


(** [R_H = R_H - np.mean(R_H)] then [y = (1e9)*R_H[:N][np.newaxis].T] *)
Definition observation (R_H : list R) (N : nat) : matrix :=
  let mean := vsum R_H / INR (length R_H) in
  let centred := map (fun v => v - mean) R_H in
  column (map (fun v => 10 ^ 9 * v) (firstn N centred)).

(** ** Sample inputs *)

(** A fit that returns zero coefficients: on data that is zero
    everywhere this is the least-squares polynomial. *)
Definition polyfit_zero (x : list R) (y : matrix) (deg : nat) : matrix :=
  zeros (deg + 1) 1.

(** A basis of two samples and one column, with rows 1 and 3 set. *)
Definition basis_sample : matrix :=
  mkMatrix 4 1
    (fun r _ => match r with 1%nat => 1 | 3%nat => 3 | _ => 0 end).

(** ** The pipeline: [process_pixel] and the calls it makes *)

(** Python objects, as far as the wiring of the calls needs them. *)
Unset Elimination Schemes.
Inductive pyobj : Type :=
| PNone
| PBool (b : bool)
| PInt (z : Z)
| PFloat (x : R)
| PArray (A : matrix)
| PDict (items : list (string * pyobj))
| PTuple (elts : list pyobj)
| PGlobal (name : string)
| PFigure.
Set Elimination Schemes.

(** A mapping from names to objects: the local variables of a call, or
    the items of a dictionary with string keys. *)
Definition frame : Type := list (string * pyobj).

Fixpoint lookup (x : string) (f : frame) : option pyobj :=
  match f with
  | [] => None
  | (k, v) :: rest => if String.eqb x k then Some v else lookup x rest
  end.

(** [p[key]] *)
Definition getitem (p : pyobj) (key : string) : result pyobj :=
  match p with
  | PDict items =>
      match lookup key items with
      | Some v => Ok v
      | None => Raise (KeyError key)
      end
  | _ => Raise (OtherError "TypeError")
  end.

(** The truth value an [if] takes of an object. *)
Definition truthy (o : pyobj) : bool :=
  match o with
  | PNone => false
  | PBool b => b
  | PInt z => negb (Z.eqb z 0)
  | PFloat x => negb (Reqb x 0)
  | PDict items => negb (Nat.eqb (length items) 0)
  | PTuple elts => negb (Nat.eqb (length elts) 0)
  | _ => true
  end.

(** Whether a name is one of a list, decided by comparing strings. *)
Definition mentions (names : list string) (x : string) : bool :=
  existsb (String.eqb x) names.

(** The names bound at the top level of the module: its imports, its
    functions, and what every module has. *)
Definition module_names : list string :=
  ["plt"; "spo"; "spla"; "np"; "time";
   "process_pixel"; "get_default_parameters"; "_B_phin"; "_mmlenn";
   "BayesianInference"; "processResults";
   "__name__"; "__doc__"; "__package__"; "__loader__"; "__spec__";
   "__file__"; "__cached__"; "__builtins__"]%string.

(** The names that the call of [BayesianInference] binds in
    [process_pixel], line 18. *)
Definition inference_names : list string :=
  ["y"; "tt"; "pp1"; "sig"; "gam"; "AA"; "B"; "BB"; "CC"; "C0"; "P0"; "CC1";
   "GAI"; "M"; "m0"; "phi"; "m_phi"; "Sig"]%string.

(** The names assigned in [processResults] before line 331, inside the
    first [if graph:], by the fit statistics, and in the last
    [if graph:]. *)
Definition setup_names : list string :=
  ["n0"; "N1"; "OmV"; "Om0"; "w"; "T"; "Tsec"; "h"; "tt"; "h1"; "tt1"; "w_ang";
   "R"; "R_seg"]%string.

Definition plot_names : list string :=
  ["mplot3d"; "threeDboi"; "ax"; "sqrtBoi2"; "bigFig"; "sqrtBoi"]%string.

Definition stats_names : list string :=
  ["rrmse"; "x1"; "y1"; "p1"; "yfit"; "yresid"; "SSresid"; "SStotal"; "rsq"]%string.

Section Pipeline.

(** The names of the [builtins] module. *)
Variable builtin_names : list string.

(** Reading a name inside a function: a local variable if the name is
    bound there, else a global of the module, else a builtin, else
    [NameError]. *)
Definition load_name (locals : frame) (x : string) : result pyobj :=
  match lookup x locals with
  | Some v => Ok v
  | None =>
      if (mentions module_names x || mentions builtin_names x)%bool
      then Ok (PGlobal x)
      else Raise (NameError x)
  end.

(** [BayesianInference], lines 156-302: all that follows the first
    read of the dictionary.  It returns the eighteen values of line 302
    or raises. *)
Variable inference_body :
  pyobj -> pyobj -> pyobj -> pyobj -> pyobj -> result (list pyobj).

Definition BayesianInference (R_H wd n0 p : pyobj) : result (list pyobj) :=
  fac <- getitem p "Bayes.fac" ;;
  inference_body R_H wd n0 p fac.

(** The numerical steps of [processResults]: lines 311-329, the
    plotting of lines 332-391 and 407-413, the fit statistics of lines
    394-403, and the two array expressions of line 419.  Each sees the
    local variables bound so far and returns the values it binds, or
    raises. *)
Variable summary_setup : frame -> result (list pyobj).
Variable plot_first : frame -> result (list pyobj).
Variable fit_statistics : frame -> result (list pyobj).
Variable plot_last : frame -> result unit.
Variable force_expr : frame -> result pyobj.
Variable residual_expr : frame -> result pyobj.

Definition processResults
    (p R_H wd Rforce M Sig B m_phi y CC graph verbose : pyobj) : result pyobj :=
  let params : frame :=
    [("p", p); ("R_H", R_H); ("wd", wd); ("Rforce", Rforce); ("M", M);
     ("Sig", Sig); ("B", B); ("m_phi", m_phi); ("y", y); ("CC", CC);
     ("graph", graph); ("verbose", verbose)]%string in
  t_max <- getitem p "Sim.Tmax" ;;
  fac <- getitem p "Bayes.fac" ;;
  wr1 <- getitem p "CL.f0" ;;
  Vac <- getitem p "Sim.VAmp" ;;
  phi <- getitem p "Sim.Phasshift" ;;
  let locals1 : frame :=
    params ++ [("t_max", t_max); ("fac", fac); ("wr1", wr1); ("Vac", Vac);
               ("phi", phi)]%string in
  setup <- summary_setup locals1 ;;
  let locals2 := locals1 ++ combine setup_names setup in
  plots <- (if truthy graph then plot_first locals2 else Ok []) ;;
  let locals3 := locals2 ++ combine plot_names plots in
  stats <- fit_statistics locals3 ;;
  let locals4 := locals3 ++ combine stats_names stats in
  if truthy graph
  then
    _ <- plot_last locals4 ;;
    threeDboi <- load_name locals4 "threeDboi" ;;
    bigFig <- load_name locals4 "bigFig" ;;
    Ok (PTuple [threeDboi; bigFig])
  else
    e1 <- load_name locals4 "phi" ;;
    pd <- load_name locals4 "p" ;;
    e2 <- getitem pd "Sim.snr" ;;
    e3 <- load_name locals4 "rrmse" ;;
    e4 <- force_expr locals4 ;;
    e5 <- load_name locals4 "R_seg" ;;
    e6 <- residual_expr locals4 ;;
    e7 <- load_name locals4 "p1" ;;
    e8 <- load_name locals4 "S" ;;
    e9 <- load_name locals4 "rsq" ;;
    Ok (PTuple [e1; e2; e3; e4; e5; e6; e7; e8; e9]).

(** [process_pixel(R_H, wd, n0, p, graph=False, verbose=False)] *)
Definition process_pixel (R_H wd n0 p graph verbose : pyobj) : result pyobj :=
  let params : frame :=
    [("R_H", R_H); ("wd", wd); ("n0", n0); ("p", p);
     ("graph", graph); ("verbose", verbose)]%string in
  _ <- load_name params "BayesianInference" ;;
  a_R_H <- load_name params "R_H" ;;
  a_wd <- load_name params "wd" ;;
  a_n0 <- load_name params "n0" ;;
  a_p <- load_name params "p" ;;
  vals <- BayesianInference a_R_H a_wd a_n0 a_p ;;
  if negb (Nat.eqb (length vals) 18)
  then Raise (OtherError "ValueError")
  else
    let locals := params ++ combine inference_names vals in
    _ <- load_name locals "processResults" ;;
    b_p <- load_name locals "p" ;;
    b_R_H <- load_name locals "R_H" ;;
    b_wd <- load_name locals "wd" ;;
    b_Rforce <- load_name locals "Rforce" ;;
    b_M <- load_name locals "M" ;;
    b_Sig <- load_name locals "Sig" ;;
    b_B <- load_name locals "B" ;;
    b_m_phi <- load_name locals "m_phi" ;;
    b_y <- load_name locals "y" ;;
    b_CC <- load_name locals "CC" ;;
    b_graph <- load_name locals "graph" ;;
    b_verbose <- load_name locals "verbose" ;;
    processResults b_p b_R_H b_wd b_Rforce b_M b_Sig b_B b_m_phi b_y b_CC
      b_graph b_verbose.

(** The claim as the specification states it: every call of
    [process_pixel] ends in a [NameError]. *)
Definition spec_always_NameError : Prop :=
  forall R_H wd n0 p graph verbose,
  exists name, process_pixel R_H wd n0 p graph verbose = Raise (NameError name).

End Pipeline.

(** The builtins that the module uses, and numerical steps that return
    placeholders. *)
Definition builtins_used : list string := ["int"; "float"; "range"; "sum"]%string.

Definition inference_placeholder (R_H wd n0 p fac : pyobj) : result (list pyobj) :=
  Ok (repeat PNone 18).

Definition step_placeholder (locals : frame) : result (list pyobj) := Ok [].
Definition plot_placeholder (locals : frame) : result unit := Ok tt.
Definition expr_placeholder (locals : frame) : result pyobj := Ok PNone.



(** A minimizer that always ends at phase 1, outside [-pi, 0], and an
    objective on a window of two samples, with solvers that return the
    right-hand side. *)
Definition minimize_to_infeasible
    (f : hyper -> npfloat) (x0 : hyper) (_ : option minimize_kwargs) : OptimizeResult :=
  let x := mkHyper (pp_sig x0) (pp_gam x0) 1 in
  mkOptimizeResult x (f x).

Definition inv_sample (finite : bool) (A : matrix) : result matrix := Ok A.
Definition lstsq_sample (A B : matrix) (rcond : R) : result matrix := Ok B.
Definition eig_sample (A : matrix) : result eigvals := Ok (RealEig [1; 1]).
Definition float_complex_sample (A : matrix) : result npfloat := Ok NaN.

Definition mmlenn_sample (pp : hyper) : result npfloat :=
  _mmlenn inv_sample lstsq_sample eig_sample float_complex_sample pp 1 [0; 1]
    (zeros 4 4) (zeros 2 2) (zeros 2 2) (column [1; 2]) 2 5 1 (zeros 5 1) 3 2.

(** The float that a call of the objective returned.  The searches
    below evaluate [objective_sample] only where the call returns. *)
Definition returned (r : result npfloat) : npfloat :=
  match r with
  | Ok v => v
  | Raise _ => NaN
  end.

Definition objective_sample (pp : hyper) : npfloat := returned (mmlenn_sample pp).

(** * Further parts of the program *)

(** [np.linalg.norm(A)] : the Frobenius norm. *)
Definition np_norm (A : matrix) : R := sqrt (frob2 A).

(** [rrmse = np.linalg.norm(y - np.matmul(CC, m_phi))/np.linalg.norm(y)],
    lines 231, 299 and 394. *)
Definition rrmse (y CC m_phi : matrix) : npfloat :=
  np_div (Fin (np_norm (msub y (matmul CC m_phi)))) (Fin (np_norm y)).

(** The sum of the squared deviations of the entries of [A] from their
    mean: the total sum of squares of the textbook coefficient of
    determination. *)
Definition squared_deviations (A : matrix) : R :=
  msum (mmap (fun v => (v - msum A / INR (size A)) * (v - msum A / INR (size A))) A).

(** ** The measured force segment ([processResults], lines 311, 328-329) *)

(** [v - np.mean(v)] for a one-dimensional [v] *)
Definition center (v : list R) : list R :=
  map (fun x => x - vsum v / INR (length v)) v.

(** [R = Rforce - np.mean(Rforce)] then [R_seg = R[n0+1:n0+N1+1]*(1e9)]
    with [n0 = 1000]. *)
Definition force_segment (Rforce : list R) (N1 : nat) : list R :=
  let n0 := 1000%nat in
  map (fun v => v * 10 ^ 9) (firstn N1 (skipn (n0 + 1) (center Rforce))).

(** ** The prior mean ([BayesianInference], lines 210-213) *)

(** [np.array([y[k]])] for a two-dimensional [y]: row [k] as an array of
    one row, or [IndexError] when [y] has no such row. *)
Definition getrow (y : matrix) (k : nat) : result matrix :=
  if Nat.ltb k (nrows y)
  then Ok (mkMatrix 1 (ncols y) (fun _ c => at_ y k c))
  else Raise (OtherError "IndexError").

(** [np.concatenate((A, B), axis=0)] for arrays with the same number of
    columns. *)
Definition vstack (A B : matrix) : matrix :=
  mkMatrix (nrows A + nrows B) (ncols A)
    (fun r c => if Nat.ltb r (nrows A) then at_ A r c else at_ B (r - nrows A) c).

(** [A / s] for a scalar [s] that is not zero. *)
Definition mdiv (A : matrix) (s : R) : matrix :=
  mkMatrix (nrows A) (ncols A) (fun r c => at_ A r c / s).

(** [m0 = np.concatenate((np.array([y[0] - (y[1]-y[0])]),
                          np.array([(y[1] - y[0])/h]),
                          np.zeros((n+1, 1))), axis=0)].
    Where this line is reached [h] is not zero: [np.arange(T, step=h)] of
    line 175 raises for a zero step. *)
Definition prior_mean (y : matrix) (h : R) (n : nat) : result matrix :=
  y0 <- getrow y 0 ;;
  y1 <- getrow y 1 ;;
  y0' <- getrow y 0 ;;
  let first := msub y0 (msub y1 y0') in
  y1' <- getrow y 1 ;;
  y0'' <- getrow y 0 ;;
  let second := mdiv (msub y1' y0'') h in
  Ok (vstack (vstack first second) (zeros (n + 1) 1)).

(** ** The parameter dictionary ([get_default_parameters], lines 24-74) *)

(** A Python number: an [int] or a [float]. *)
Inductive pynum : Type :=
| PyInt (z : Z)
| PyFloat (x : R).

Definition num_val (v : pynum) : R :=
  match v with
  | PyInt z => IZR z
  | PyFloat x => x
  end.

(** A dictionary from strings to numbers, in insertion order. *)
Definition params : Type := list (string * pynum).

(** [p[key] = v] : the value of an existing key is replaced, a new key
    goes to the end. *)
Fixpoint setitem (p : params) (key : string) (v : pynum) : params :=
  match p with
  | [] => [(key, v)]
  | (k, x) :: rest =>
      if String.eqb key k then (k, v) :: rest else (k, x) :: setitem rest key v
  end.

(** [p[key]] *)
Fixpoint read (p : params) (key : string) : result pynum :=
  match p with
  | [] => Raise (KeyError key)
  | (k, x) :: rest => if String.eqb key k then Ok x else read rest key
  end.

(** The assignments of lines 32-72, in their order. *)
Definition default_assignments : list (string * pynum) :=
  [("SYS.dzds", PyFloat 81e-15);
   ("SYS.INVOLS", PyFloat 52.5e-9);
   ("CL.f0", PyFloat 58e3);
   ("CL.Q", PyInt 115);
   ("CL.k", PyFloat 2.8);
   ("CL.A", PyInt 1);
   ("CL.T", PyFloat (273.15 + 23.8));
   ("CL.f1", PyFloat 350e3);
   ("CL.Q1", PyInt 350);
   ("CL.A1", PyFloat 0.0000);
   ("Tip.c_angle", PyFloat (32 * PI / 180));
   ("TS.Rtip", PyFloat 20e-9);
   ("TS.Rheight", PyFloat 22e-6);
   ("TS.eps_z", PyFloat 8.85e-12);
   ("TS.alpha", PyFloat (- 12.3e9));
   ("TS.beta", PyFloat 12.3e9);
   ("Sim.Tmax", PyFloat (4.096e-3 * 2));
   ("Sim.IOrate", PyFloat 4e6);
   ("Sim.Vfreq", PyFloat 56e3);
   ("Sim.VAmp", PyInt 3);
   ("Sim.VCPD", PyInt (- 1));
   ("Sim.VDC", PyInt 0);
   ("Sim.Phasshift", PyFloat 0.2);
   ("Sim.NAmp", PyFloat 1e-6);
   ("Sim.snr", PyInt 12);
   ("Bayes.fac", PyInt 128);
   ("Bayes.Npoly", PyInt 2);
   ("Bayes.aa", PyInt 2)]%string.

(** [get_default_parameters()] : [p = {}] followed by the assignments. *)
Definition get_default_parameters : params :=
  fold_left (fun p kv => setitem p (fst kv) (snd kv)) default_assignments [].

(** The dictionary as the object that the calls of the pipeline pass
    on. *)
Definition obj_of_num (v : pynum) : pyobj :=
  match v with
  | PyInt z => PInt z
  | PyFloat x => PFloat x
  end.

Definition dict_of (p : params) : pyobj :=
  PDict (map (fun kv => (fst kv, obj_of_num (snd kv))) p).

(** ** The window set-up ([BayesianInference], lines 155-174) *)

(** [a / b] on Python numbers *)
Definition py_truediv (a b : R) : result R :=
  if Reqb b 0 then Raise (OtherError "ZeroDivisionError") else Ok (a / b).

Record window_setup : Type := mkSetup {
  ws_Qi : R;
  ws_w : R;
  ws_N : Z;
  ws_T : R;
  ws_h : R
}.

(** Lines 155-174 for a signal of [size] samples, a drive frequency [wd]
    that is a Python number, and a dictionary of Python numbers.  Of
    lines 167-173, [np.zeros((2, 2*N))] raises for a negative [N]. *)
Definition inference_setup (size : nat) (wd : R) (p : params) : result window_setup :=
  fac <- read p "Bayes.fac" ;;
  Q <- read p "CL.Q" ;;
  Qi <- py_truediv 1 (num_val Q) ;;
  let OmV := wd * 1e-3 in
  f0 <- read p "CL.f0" ;;
  let Om0 := num_val f0 * 1e-3 in
  w <- py_truediv OmV Om0 ;;
  wr1 <- read p "CL.f0" ;;
  q <- py_truediv (INR size) (num_val fac) ;;
  let N := py_int q in
  Tmax <- read p "Sim.Tmax" ;;
  T <- py_truediv (num_val Tmax * num_val wr1 * 2 * PI) (num_val fac) ;;
  if Z.ltb N 0 then Raise (OtherError "ValueError")
  else
    h <- py_truediv T (IZR N) ;;
    Ok (mkSetup Qi w N T h).

(** Numerical steps of [processResults] that return one placeholder for
    every name they bind. *)
Definition setup_returning (locals : frame) : result (list pyobj) :=
  Ok (repeat PNone (length setup_names)).

Definition statistics_returning (locals : frame) : result (list pyobj) :=
  Ok (repeat PNone (length stats_names)).

(** ** Position datasets
       ([Translator._buildpositiondatasets], io/translators/translator.py,
       lines 54-133) *)

Definition steps_mismatch : exn :=
  OtherError "ValueError: The arrays for step sizes and dimension sizes must be the same.".

Definition initial_mismatch : exn :=
  OtherError "ValueError: The arrays for initial values and dimension sizes must be the same.".

Definition labels_mismatch : exn :=
  OtherError "ValueError: The arrays for labels and dimension sizes must be the same.".

Definition int_not_iterable : exn :=
  OtherError "TypeError: 'int' object is not iterable".

Definition not_broadcastable : exn :=
  OtherError "ValueError: operands could not be broadcast together".


(** [pos_vals = initial_values + np.float32(pos_inds)*steps] for two
    one-dimensional operands of one length and a two-dimensional
    [pos_inds], with numpy's broadcasting of the last axis. *)
Definition position_values (initial steps : list R) (pos_inds : matrix)
    : result matrix :=
  let D := length steps in
  let C := ncols pos_inds in
  if (Nat.eqb C D || Nat.eqb C 1 || Nat.eqb D 1)%bool
  then Ok (mkMatrix (nrows pos_inds) (if Nat.eqb C 1 then D else C)
             (fun r c => nth (bidx D c) initial 0
                         + at_ pos_inds r (bidx C c) * nth (bidx D c) steps 0))
  else Raise not_broadcastable.

Section PositionDatasets.

(** [MicroDataset] objects, and what [getPositionSlicing] returns. *)
Variable dataset : Type.
Variable slicing : Type.

(** [makePositionMat] and [getPositionSlicing] of [io/translators/utils],
    the constructor [MicroDataset(name, data, dtype=...)], and the
    assignments [ds.attrs['labels'] = ...] and [ds.attrs['units'] = ...]. *)
Variable makePositionMat : list nat -> result matrix.
Variable getPositionSlicing : list string -> result slicing.
Variable MicroDataset : string -> matrix -> string -> dataset.
Variable set_labels : dataset -> slicing -> dataset.
Variable set_units : dataset -> list string -> dataset.

(** [_buildpositiondatasets(dimensions, steps=None, initial_values=None,
                            labels=None, units=None)] *)
Definition _buildpositiondatasets
    (dimensions : list nat) (steps initial_values : option (list R))
    (labels units : option (list string)) : result (dataset * dataset) :=
  steps' <- match steps with
            | None => Ok (map (fun _ => 0) dimensions)
            | Some s =>
                if negb (Nat.eqb (length s) (length dimensions))
                then Raise steps_mismatch else Ok s
            end ;;
  initial' <- match initial_values with
              | None => Ok (map (fun _ => 0) dimensions)
              | Some v =>
                  if negb (Nat.eqb (length v) (length dimensions))
                  then Raise initial_mismatch else Ok v
              end ;;
  labels' <- match labels with
             | None => Raise int_not_iterable
             | Some l =>
                 if negb (Nat.eqb (length l) (length dimensions))
                 then Raise labels_mismatch else Ok l
             end ;;
  pos_inds <- makePositionMat dimensions ;;
  pos_vals <- position_values initial' steps' pos_inds ;;
  pos_slices <- getPositionSlicing labels' ;;
  let ds_pos_inds :=
    set_labels (MicroDataset "Position_Indices" pos_inds "uint32") pos_slices in
  let ds_pos_vals :=
    set_labels (MicroDataset "Position_Values" pos_vals "float32") pos_slices in
  match units with
  | None => Ok (ds_pos_inds, ds_pos_vals)
  | Some u =>
      if negb (Nat.eqb (length u) (length dimensions))
      then Raise labels_mismatch
      else Ok (set_units ds_pos_inds u, set_units ds_pos_vals u)
  end.

End PositionDatasets.

(** What the optional arguments [steps] and [initial_values] stand for
    once their checks have passed. *)
Definition defaulted (dimensions : list nat) (o : option (list R)) : list R :=
  match o with
  | None => map (fun _ => 0) dimensions
  | Some s => s
  end.

(** Datasets reduced to their name and data, for examples. *)
Definition dataset_sample : Type := string * matrix.

Definition positions_sample (dimensions : list nat) : result matrix :=
  Ok (zeros 4 (length dimensions)).

(** * Theorems *)

(** ** Basis Builder *)

Lemma B_phin_loop phi w tt (l : list nat) :
  forall Bn, nrows Bn = (2 * length tt)%nat ->
  let Bn' := fold_left
      (fun Bn i => set_col_slice Bn 1 (2 * length tt + 1) 2 i (sin_pow phi w tt i))
      l Bn in
  nrows Bn' = nrows Bn /\ ncols Bn' = ncols Bn /\
  forall r c, at_ Bn' r c =
    if (existsb (Nat.eqb c) l && written (length tt) r)%bool
    then sin_pow phi w tt c ((r - 1) / 2)%nat
    else at_ Bn r c.
Proof.
  induction l as [|i l IH]; intros Bn Hrows; cbn zeta.
  - simpl. auto.
  - simpl fold_left.
    specialize (IH (set_col_slice Bn 1 (2 * length tt + 1) 2 i (sin_pow phi w tt i)) Hrows).
    cbn zeta in IH. destruct IH as (Hr & Hc & Hat).
    split; [exact Hr|]. split; [exact Hc|].
    intros r c. rewrite Hat. simpl existsb.
    unfold set_col_slice at 1. cbn [at_ nrows]. rewrite Hrows.
    assert (Hw : (Nat.eqb c i && Nat.leb 1 r
                  && Nat.ltb r (Nat.min (2 * length tt + 1) (2 * length tt))
                  && Nat.eqb ((r - 1) mod 2) 0)%bool
                 = (Nat.eqb c i && written (length tt) r)%bool).
    { unfold written. now rewrite !andb_assoc. }
    rewrite Hw.
    destruct (existsb (Nat.eqb c) l), (written (length tt) r),
      (Nat.eqb c i) eqn:Eci; simpl; try reflexivity.
    apply Nat.eqb_eq in Eci. now subst c.
Qed.

Lemma written_odd N k : (k < N)%nat -> written N (2 * k + 1) = true.
Proof.
  intros Hk. unfold written.
  replace (2 * k + 1 - 1)%nat with (k * 2)%nat by lia.
  rewrite Nat.Div0.mod_mul.
  rewrite Nat.eqb_refl, andb_true_r.
  apply andb_true_iff. split.
  - apply Nat.leb_le. lia.
  - apply Nat.ltb_lt. lia.
Qed.

Lemma written_even N k : written N (2 * k) = false.
Proof.
  unfold written. destruct k as [|k].
  - reflexivity.
  - replace (2 * S k - 1)%nat with (1 + k * 2)%nat by lia.
    rewrite Nat.Div0.mod_add. simpl (1 mod 2)%nat.
    simpl Nat.eqb. apply andb_false_r.
Qed.

Lemma existsb_seq c n : (c <= n)%nat -> existsb (Nat.eqb c) (seq 0 (n + 1)) = true.
Proof.
  intros H. apply existsb_exists. exists c. split.
  - apply in_seq. lia.
  - apply Nat.eqb_refl.
Qed.

Lemma B_phin_shape phi w tt n :
  nrows (_B_phin phi w tt n) = (2 * length tt)%nat /\
  ncols (_B_phin phi w tt n) = (n + 1)%nat.
Proof.
  unfold _B_phin. cbn zeta.
  destruct (B_phin_loop phi w tt (seq 0 (n + 1)) (zeros (2 * length tt) (n + 1)) eq_refl)
    as (Hr & Hc & _).
  split; assumption.
Qed.

(** C8: [_B_phin] returns an array of shape (2N, n+1) whose rows of even
    0-based index are zero and whose rows of odd 0-based index [2k+1] hold
    [sin(w*tt[k] + phi)^i] in column [i], for [i = 0..n].  The function is
    total: it has no error outcome. *)
Theorem B_phin_shape_rows (phi w : R) (tt : list R) (n : nat) :
  nrows (_B_phin phi w tt n) = (2 * length tt)%nat /\
  ncols (_B_phin phi w tt n) = (n + 1)%nat /\
  (forall k c, at_ (_B_phin phi w tt n) (2 * k) c = 0) /\
  (forall k i, (k < length tt)%nat -> (i <= n)%nat ->
     at_ (_B_phin phi w tt n) (2 * k + 1) i = (sin (w * nth k tt 0 + phi)) ^ i).
Proof.
  unfold _B_phin. cbn zeta.
  destruct (B_phin_loop phi w tt (seq 0 (n + 1)) (zeros (2 * length tt) (n + 1)) eq_refl)
    as (Hr & Hc & Hat).
  split; [exact Hr|]. split; [exact Hc|]. split.
  - intros k c. rewrite Hat, written_even, andb_false_r. reflexivity.
  - intros k i Hk Hi. rewrite Hat, written_odd, existsb_seq by assumption.
    simpl andb. cbv iota. unfold sin_pow.
    replace ((2 * k + 1 - 1) / 2)%nat with k; [reflexivity|].
    replace (2 * k + 1 - 1)%nat with (k * 2)%nat by lia.
    symmetry. apply Nat.div_mul. discriminate.
Qed.

Lemma B_phin_shape_rows_witness :
  at_ (_B_phin (-1) 2 [0; 1; 3] 2) (2 * 1 + 1) 2 = (sin (2 * nth 1 [0; 1; 3] 0 + -1)) ^ 2.
Proof.
  apply (B_phin_shape_rows (-1) 2 [0; 1; 3] 2); simpl; lia.
Defined.

(** ** State Transition Assembler *)

(** Quotient and remainder by two, as linear facts for [lia]. *)
Ltac divmod2 x :=
  pose proof (Nat.div_mod_eq x 2);
  pose proof (Nat.mod_upper_bound x 2 ltac:(discriminate)).

Section TransitionFacts.

Variable expm : matrix -> matrix.
Variable Qi h : R.

Local Abbreviation step_block := (step_block expm Qi h).

Lemma build_A_loop N (l : list nat) :
  forall A, nrows A = 2%nat -> ncols A = (2 * N)%nat ->
  let A' := fold_left
      (fun A i => set_block A 0 (nrows A) (2 * i) (2 * (i + 1)) (step_block (i + 1)))
      l A in
  nrows A' = 2%nat /\ ncols A' = (2 * N)%nat /\
  forall r c, (r < 2)%nat -> (c < 2 * N)%nat ->
    at_ A' r c =
    if existsb (Nat.eqb (c / 2)) l
    then at_ (step_block (c / 2 + 1)) r (c mod 2)
    else at_ A r c.
Proof.
  induction l as [|i l IH]; intros A Hr Hc; cbn zeta.
  - simpl. auto.
  - cbn [fold_left].
    destruct (IH (set_block A 0 (nrows A) (2 * i) (2 * (i + 1)) (step_block (i + 1)))
                Hr Hc) as (Hr' & Hc' & Hat).
    split; [exact Hr'|]. split; [exact Hc'|].
    intros r c Hlr Hlc. rewrite (Hat r c Hlr Hlc). cbn [existsb].
    divmod2 c.
    destruct (existsb (Nat.eqb (c / 2)) l).
    + now rewrite orb_true_r.
    + rewrite orb_false_r. unfold set_block. cbn [at_].
      rewrite Hr, Hc.
      destruct (Nat.eqb (c / 2) i) eqn:E.
      * apply Nat.eqb_eq in E.
        replace (Nat.leb 0 r) with true by (symmetry; apply Nat.leb_le; lia).
        replace (Nat.ltb r (Nat.min 2 2)) with true
          by (symmetry; apply Nat.ltb_lt; simpl; lia).
        replace (Nat.leb (2 * i) c) with true by (symmetry; apply Nat.leb_le; lia).
        replace (Nat.ltb c (Nat.min (2 * (i + 1)) (2 * N))) with true
          by (symmetry; apply Nat.ltb_lt; lia).
        simpl andb. cbv iota.
        replace (r - 0)%nat with r by lia.
        replace (c - 2 * i)%nat with (c mod 2)%nat by lia.
        now rewrite E.
      * apply Nat.eqb_neq in E.
        destruct (Nat.leb (2 * i) c) eqn:E1.
        -- apply Nat.leb_le in E1.
           replace (Nat.ltb c (Nat.min (2 * (i + 1)) (2 * N))) with false
             by (symmetry; apply Nat.ltb_ge; lia).
           now rewrite andb_false_r.
        -- now rewrite andb_false_r.
Qed.

(** Entries of [A]: block [i] is the [(i+1)]-step response. *)
Lemma build_A_entries N :
  nrows (build_A expm Qi h N) = 2%nat /\
  ncols (build_A expm Qi h N) = (2 * N)%nat /\
  forall i r c, (i < N)%nat -> (r < 2)%nat -> (c < 2)%nat ->
    at_ (build_A expm Qi h N) r (2 * i + c) = at_ (step_block (i + 1)) r c.
Proof.
  unfold build_A.
  destruct (build_A_loop N (seq 0 N) (zeros 2 (2 * N)) eq_refl eq_refl)
    as (Hr & Hc & Hat).
  split; [exact Hr|]. split; [exact Hc|].
  intros i r c Hi Hlr Hlc. rewrite Hat by lia.
  divmod2 (2 * i + c)%nat.
  replace ((2 * i + c) / 2)%nat with i by lia.
  replace ((2 * i + c) mod 2)%nat with c by lia.
  replace (existsb (Nat.eqb i) (seq 0 N)) with true; [reflexivity|].
  symmetry. apply existsb_exists. exists i. split.
  - apply in_seq. lia.
  - apply Nat.eqb_refl.
Qed.

(** Entries of [A1]: block [i] is the [(N-i)]-step response. *)
Lemma build_A1_entries N :
  forall i r c, (i < N)%nat -> (r < 2)%nat -> (c < 2)%nat ->
    at_ (build_A1 (build_A expm Qi h N)) r (2 * i + c) = at_ (step_block (N - i)) r c.
Proof.
  intros i r c Hi Hlr Hlc.
  destruct (build_A_entries N) as (Hr & Hc & Hat).
  unfold build_A1. cbn zeta.
  unfold set_odd_cols, set_even_cols, fliplr, even_cols, odd_cols.
  cbn [at_ ncols nrows]. rewrite Hc.
  divmod2 (S (2 * N)). divmod2 (2 * N)%nat. divmod2 (2 * i + c)%nat.
  replace (Nat.div2 (S (2 * N))) with N
    by (rewrite Nat.div2_div; lia).
  replace (Nat.div2 (2 * N)) with N
    by (rewrite Nat.div2_div; lia).
  replace ((2 * i + c) / 2)%nat with i by lia.
  assert (Hc01 : c = 0%nat \/ c = 1%nat) by lia.
  destruct Hc01 as [-> | ->].
  - replace (Nat.odd (2 * i + 0)) with false.
    2:{ symmetry. rewrite Nat.add_0_r, <- Nat.negb_even, Nat.even_mul. reflexivity. }
    replace (Nat.even (2 * i + 0)) with true.
    2:{ symmetry. rewrite Nat.add_0_r, Nat.even_mul. reflexivity. }
    replace (2 * (N - 1 - i))%nat with (2 * (N - 1 - i) + 0)%nat by lia.
    rewrite Hat by lia. f_equal. f_equal. lia.
  - replace (Nat.odd (2 * i + 1)) with true.
    2:{ symmetry. rewrite Nat.add_comm, Nat.odd_add_mul_2. reflexivity. }
    rewrite Hat by lia. f_equal. f_equal. lia.
Qed.

Lemma build_AA_loop N (A1 : matrix) (l : list nat) :
  forall AA, nrows AA = (2 * N)%nat -> ncols AA = (2 * N)%nat ->
  let AA' := fold_left
      (fun AA j => set_block AA (2 * j) (2 * (j + 1)) 0 (2 * j) (last_cols A1 (2 * j)))
      l AA in
  nrows AA' = (2 * N)%nat /\ ncols AA' = (2 * N)%nat /\
  forall r c, (r < 2 * N)%nat -> (c < 2 * N)%nat ->
    at_ AA' r c =
    if (existsb (Nat.eqb (r / 2)) l && Nat.ltb c (2 * (r / 2)))%bool
    then at_ (last_cols A1 (2 * (r / 2))) (r mod 2) c
    else at_ AA r c.
Proof.
  induction l as [|j l IH]; intros AA Hr Hc; cbn zeta.
  - simpl. auto.
  - cbn [fold_left].
    destruct (IH (set_block AA (2 * j) (2 * (j + 1)) 0 (2 * j) (last_cols A1 (2 * j)))
                Hr Hc) as (Hr' & Hc' & Hat).
    split; [exact Hr'|]. split; [exact Hc'|].
    intros r c Hlr Hlc. rewrite (Hat r c Hlr Hlc). cbn [existsb].
    divmod2 r.
    assert (Hstep :
      at_ (set_block AA (2 * j) (2 * (j + 1)) 0 (2 * j) (last_cols A1 (2 * j))) r c =
      if (Nat.eqb (r / 2) j && Nat.ltb c (2 * (r / 2)))%bool
      then at_ (last_cols A1 (2 * (r / 2))) (r mod 2) c
      else at_ AA r c).
    { unfold set_block. cbn [at_]. rewrite Hr, Hc.
      destruct (Nat.eqb (r / 2) j) eqn:E.
      - apply Nat.eqb_eq in E. rewrite E.
        replace (Nat.leb (2 * j) r) with true by (symmetry; apply Nat.leb_le; lia).
        replace (Nat.ltb r (Nat.min (2 * (j + 1)) (2 * N))) with true
          by (symmetry; apply Nat.ltb_lt; lia).
        cbn [andb Nat.leb].
        replace (Nat.min (2 * j) (2 * N)) with (2 * j)%nat by lia.
        destruct (Nat.ltb c (2 * j)); [|reflexivity].
        replace (r - 2 * j)%nat with (r mod 2)%nat by lia.
        now replace (c - 0)%nat with c by lia.
      - apply Nat.eqb_neq in E. cbn [andb].
        destruct (Nat.leb (2 * j) r) eqn:E1; [|reflexivity].
        apply Nat.leb_le in E1.
        replace (Nat.ltb r (Nat.min (2 * (j + 1)) (2 * N))) with false
          by (symmetry; apply Nat.ltb_ge; lia).
        reflexivity. }
    rewrite Hstep.
    destruct (existsb (Nat.eqb (r / 2)) l), (Nat.eqb (r / 2) j),
      (Nat.ltb c (2 * (r / 2))); reflexivity.
Qed.

Lemma AA_shape N :
  nrows (build_AA expm Qi h N) = (2 * N)%nat /\
  ncols (build_AA expm Qi h N) = (2 * N)%nat.
Proof.
  unfold build_AA. cbn zeta.
  destruct (build_AA_loop N (build_A1 (build_A expm Qi h N)) (seq 1 (N - 1))
              (zeros (2 * N) (2 * N)) eq_refl eq_refl) as (Hr & Hc & _).
  split; assumption.
Qed.

End TransitionFacts.

(** C2: [AA] is 2N x 2N; its 2x2 block at block-row [j], block-column
    [k] is [expm(L*h*(j-k))] when [k < j] and the zero block when
    [k >= j]. *)
Theorem AA_block_lower_triangular
    (expm : matrix -> matrix) (Qi h : R) (N : nat) :
  nrows (build_AA expm Qi h N) = (2 * N)%nat /\
  ncols (build_AA expm Qi h N) = (2 * N)%nat /\
  forall j k r c, (j < N)%nat -> (k < N)%nat -> (r < 2)%nat -> (c < 2)%nat ->
    at_ (build_AA expm Qi h N) (2 * j + r) (2 * k + c) =
    if Nat.ltb k j
    then at_ (expm (mscale (INR (j - k)) (mscale h (L_gen Qi)))) r c
    else 0.
Proof.
  unfold build_AA. cbn zeta.
  destruct (build_AA_loop N (build_A1 (build_A expm Qi h N)) (seq 1 (N - 1))
              (zeros (2 * N) (2 * N)) eq_refl eq_refl) as (Hr & Hc & Hat).
  split; [exact Hr|]. split; [exact Hc|].
  intros j k r c Hj Hk Hlr Hlc. rewrite Hat by lia.
  divmod2 (2 * j + r)%nat.
  replace ((2 * j + r) / 2)%nat with j by lia.
  replace ((2 * j + r) mod 2)%nat with r by lia.
  destruct (Nat.ltb k j) eqn:Ekj.
  - apply Nat.ltb_lt in Ekj.
    replace (existsb (Nat.eqb j) (seq 1 (N - 1))) with true.
    2:{ symmetry. apply existsb_exists. exists j. split.
        - apply in_seq. lia.
        - apply Nat.eqb_refl. }
    replace (Nat.ltb (2 * k + c) (2 * j)) with true
      by (symmetry; apply Nat.ltb_lt; lia).
    cbn [andb]. unfold last_cols. cbn [at_].
    assert (HcA1 : ncols (build_A1 (build_A expm Qi h N)) = (2 * N)%nat).
    { unfold build_A1. cbn. apply (build_A_entries expm Qi h N). }
    rewrite HcA1.
    replace (2 * N - Nat.min (2 * j) (2 * N) + (2 * k + c))%nat
      with (2 * (N - j + k) + c)%nat by lia.
    rewrite build_A1_entries by lia.
    replace (N - (N - j + k))%nat with (j - k)%nat by lia. reflexivity.
  - apply Nat.ltb_ge in Ekj.
    replace (Nat.ltb (2 * k + c) (2 * j)) with false
      by (symmetry; apply Nat.ltb_ge; lia).
    rewrite andb_false_r. reflexivity.
Qed.

(** An instance with two samples: the sub-diagonal block is the one-step
    response. *)
Lemma AA_block_lower_triangular_witness :
  at_ (build_AA (fun X => X) 1 1 2) (2 * 1 + 0) (2 * 0 + 1) =
  at_ (mscale (INR (1 - 0)) (mscale 1 (L_gen 1))) 0 1.
Proof.
  apply (AA_block_lower_triangular (fun X => X) 1 1 2); lia.
Defined.

(** ** Marginal-likelihood objective *)

Lemma Rleb_true x y : Rleb x y = true <-> x <= y.
Proof. unfold Rleb. destruct (Rle_dec x y); split; intros; try easy. Qed.

Lemma Rleb_false x y : Rleb x y = false <-> y < x.
Proof.
  unfold Rleb. destruct (Rle_dec x y); split; intros; try easy; lra.
Qed.

Lemma rsum_const n c : rsum n (fun _ => c) = INR n * c.
Proof.
  induction n as [|n IH].
  - simpl. lra.
  - cbn [rsum]. rewrite IH, S_INR. lra.
Qed.

Lemma rsum_ext n f g :
  (forall k, (k < n)%nat -> f k = g k) -> rsum n f = rsum n g.
Proof.
  induction n as [|n IH]; intros H; cbn [rsum].
  - reflexivity.
  - rewrite IH, H by (intros; try apply H; lia). reflexivity.
Qed.

(** [np.sum(np.log(gam**2*np.ones((N, 1))))] is [N*log(gam**2)]. *)
Lemma sum_log_noise gam N :
  msum (mmap ln (mscale (gam ^ 2) (ones N 1))) = INR N * ln (gam ^ 2).
Proof.
  unfold msum. cbn [nrows ncols mmap mscale ones at_ rsum].
  rewrite <- rsum_const. apply rsum_ext. intros k _.
  rewrite Rplus_0_l, Rmult_1_r. reflexivity.
Qed.

Lemma Rltb_true x y : Rltb x y = true <-> x < y.
Proof. unfold Rltb. destruct (Rlt_dec x y); split; intros; try easy. Qed.

Lemma Rltb_false x y : Rltb x y = false <-> y <= x.
Proof.
  unfold Rltb. destruct (Rlt_dec x y); split; intros; try easy; lra.
Qed.

Lemma Reqb_true x y : Reqb x y = true <-> x = y.
Proof. unfold Reqb. destruct (Req_dec_T x y); split; intros; try easy. Qed.

Lemma Reqb_false x y : Reqb x y = false <-> x <> y.
Proof. unfold Reqb. destruct (Req_dec_T x y); split; intros; try easy. Qed.

Lemma bind_Ok {A B : Type} (a : A) (k : A -> result B) : bind (Ok a) k = k a.
Proof. reflexivity. Qed.

Lemma bind_Raise {A B : Type} (e : exn) (k : A -> result B) :
  bind (Raise e) k = Raise e.
Proof. reflexivity. Qed.

(** ** Array operations that check shapes *)

Lemma np_matmul_ok A B : ncols A = nrows B -> np_matmul A B = Ok (matmul A B).
Proof.
  intros H. unfold np_matmul. now rewrite (proj2 (Nat.eqb_eq _ _) H).
Qed.


Lemma np_hstack_ok A B : nrows A = nrows B -> np_hstack A B = Ok (hstack A B).
Proof.
  intros H. unfold np_hstack. now rewrite (proj2 (Nat.eqb_eq _ _) H).
Qed.

Lemma np_madd_ok A B :
  nrows A = nrows B -> ncols A = ncols B -> np_madd A B = Ok (madd A B).
Proof.
  intros Hr Hc. unfold np_madd.
  now rewrite (proj2 (Nat.eqb_eq _ _) Hr), (proj2 (Nat.eqb_eq _ _) Hc).
Qed.

(** The design matrix is built when the inner dimensions of [AA] and [B]
    agree and the three blocks have the rows of [AA]. *)
Lemma np_design_CC_ok AA a1 a2 B h :
  ncols AA = nrows B -> size a1 = nrows AA -> size a2 = nrows AA ->
  np_design_CC AA a1 a2 B h = Ok (design_CC AA a1 a2 B h).
Proof.
  intros Hin H1 H2. unfold np_design_CC.
  rewrite (np_matmul_ok AA B Hin), bind_Ok.
  rewrite np_hstack_ok, bind_Ok by (cbn [nrows reshape_F_col]; congruence).
  rewrite np_hstack_ok, bind_Ok
    by (cbn [nrows reshape_F_col hstack mscale matmul]; congruence).
  reflexivity.
Qed.


(** ** Floats that need not be finite *)

Lemma np_add_fin_parts a b c d s :
  np_add (np_sub (np_add (np_add (Fin a) s) (Fin b)) (Fin c)) (Fin d)
  = np_add (Fin (a + b - c + d)) s.
Proof.
  destruct s; cbn; try reflexivity. f_equal. ring.
Qed.

Lemma np_sum_log_pos vals :
  (forall v, In v vals -> 0 < v) -> np_sum_log vals = Fin (vsum (map ln vals)).
Proof.
  induction vals as [|v vals IH]; intros Hpos; [reflexivity|].
  cbn [np_sum_log fold_right map vsum].
  change (fold_right (fun x acc => np_add (np_log x) acc) (Fin 0) vals)
    with (np_sum_log vals).
  rewrite IH by (intros u Hu; apply Hpos; now right).
  unfold np_log. rewrite (proj2 (Rltb_true 0 v)) by (apply Hpos; now left).
  reflexivity.
Qed.

Lemma np_add_nan_r a : np_add a NaN = NaN.
Proof. now destruct a. Qed.

Lemma np_sum_log_neg vals :
  (exists v, In v vals /\ v < 0) -> np_sum_log vals = NaN.
Proof.
  induction vals as [|u vals IH]; intros (v & Hin & Hneg); [easy|].
  cbn [np_sum_log fold_right].
  change (fold_right (fun x acc => np_add (np_log x) acc) (Fin 0) vals)
    with (np_sum_log vals).
  destruct Hin as [-> | Hin].
  - unfold np_log. rewrite (proj2 (Rltb_false 0 v)) by lra.
    rewrite (proj2 (Reqb_false v 0)) by lra. reflexivity.
  - rewrite IH by (exists v; auto). apply np_add_nan_r.
Qed.

Lemma nth_prior_list (a : R) (f : nat -> R) n r :
  (r < 2 + n + 1)%nat ->
  nth r ([a; a] ++ map f (seq 1 (n + 1))) 0 =
  if Nat.ltb r 2 then a else f (r - 1)%nat.
Proof.
  intros Hr. destruct r as [|[|r]]; [reflexivity | reflexivity |].
  cbn [app nth Nat.ltb Nat.leb].
  rewrite (nth_indep _ 0 (f 0%nat)) by (rewrite length_map, length_seq; lia).
  rewrite map_nth, seq_nth by lia. f_equal; lia.
Qed.

(** ** Marginal-likelihood objective *)

Section ObjectiveFacts.

Variable inv : bool -> matrix -> result matrix.
Variable lstsq : matrix -> matrix -> R -> result matrix.
Variable eig : matrix -> result eigvals.
Variable float_complex : matrix -> result npfloat.

Variable pp : hyper.
Variable w : R.
Variable tt : list R.
Variable AA a1 a2 y : matrix.
Variable n M : nat.
Variable h : R.
Variable m0 : matrix.
Variable sigi : R.
Variable aa : nat.
Variable N : nat.

Local Abbreviation sig := (pp_sig pp).
Local Abbreviation gam := (pp_gam pp).
Local Abbreviation phi := (pp_phi pp).
Local Abbreviation P0 := (prior_precision sigi (pp_sig pp) n aa).
Local Abbreviation GAI := (noise_precision (pp_gam pp) N).
Local Abbreviation B := (_B_phin (pp_phi pp) w tt n).
Local Abbreviation CC := (design_CC AA a1 a2 (_B_phin (pp_phi pp) w tt n) h).
Local Abbreviation normal :=
  (madd (prior_precision sigi (pp_sig pp) n aa)
     (matmul (matmul (transpose (design_CC AA a1 a2 (_B_phin (pp_phi pp) w tt n) h))
                (noise_precision (pp_gam pp) N))
        (design_CC AA a1 a2 (_B_phin (pp_phi pp) w tt n) h))).
Local Abbreviation objective :=
  (_mmlenn inv lstsq eig float_complex pp w tt AA a1 a2 y n M h m0 sigi aa).
Local Abbreviation posterior :=
  (mmlenn_posterior inv lstsq pp w tt AA a1 a2 y n M h m0 sigi aa).

(** The shapes of a window of [N] samples. *)
Hypothesis y_rows : nrows y = N.
Hypothesis y_cols : ncols y = 1%nat.
Hypothesis AA_rows : nrows AA = (2 * N)%nat.
Hypothesis AA_cols : ncols AA = (2 * N)%nat.
Hypothesis a1_size : size a1 = (2 * N)%nat.
Hypothesis a2_size : size a2 = (2 * N)%nat.
Hypothesis tt_length : length tt = N.
Hypothesis m0_rows : nrows m0 = (2 + n + 1)%nat.
Hypothesis m0_cols : ncols m0 = 1%nat.
Hypothesis sigi_nonzero : sigi <> 0.

Lemma size_y : size y = N.
Proof. unfold size. rewrite y_rows, y_cols. lia. Qed.

Lemma CC_shape : nrows CC = N /\ ncols CC = (2 + n + 1)%nat.
Proof.
  destruct (B_phin_shape phi w tt n) as (_ & HcB).
  unfold design_CC, design_CC1.
  cbn [nrows ncols even_rows hstack reshape_F_col mscale matmul].
  rewrite a1_size, HcB. split; [|lia].
  divmod2 (S (2 * N)). rewrite Nat.div2_div. lia.
Qed.

Lemma P0_shape : nrows P0 = (2 + n + 1)%nat /\ ncols P0 = (2 + n + 1)%nat.
Proof.
  unfold prior_precision. cbn [nrows ncols diag].
  rewrite length_app, length_map, length_seq. cbn [length]. lia.
Qed.

Lemma GAI_shape : nrows GAI = N /\ ncols GAI = N.
Proof. split; reflexivity. Qed.

Lemma design_ok : np_design_CC AA a1 a2 B h = Ok CC.
Proof.
  destruct (B_phin_shape phi w tt n) as (HrB & _).
  apply np_design_CC_ok; rewrite ?HrB; congruence.
Qed.

Lemma posterior_Sig_steps finite :
  posterior_Sig lstsq finite P0 GAI CC M =
  if finite then lstsq normal (eye M) (- 1) else Raise (OtherError "LinAlgError").
Proof.
  destruct CC_shape as (HrC & HcC). destruct P0_shape as (HrP & HcP).
  unfold posterior_Sig.
  rewrite np_matmul_ok, bind_Ok by (cbn [ncols nrows transpose]; now rewrite HrC).
  rewrite np_matmul_ok, bind_Ok by (cbn [ncols nrows transpose matmul]; now rewrite HrC).
  rewrite np_madd_ok, bind_Ok
    by (cbn [ncols nrows transpose matmul]; now rewrite ?HrP, ?HcP, ?HcC).
  reflexivity.
Qed.

Lemma posterior_mean_ok Sig :
  ncols Sig = (2 + n + 1)%nat ->
  posterior_mean Sig P0 GAI CC y m0 =
  Ok (matmul Sig (madd (matmul (matmul (transpose CC) GAI) y) (matmul P0 m0))).
Proof.
  intros HSig.
  destruct CC_shape as (HrC & HcC). destruct P0_shape as (HrP & HcP).
  unfold posterior_mean.
  rewrite np_matmul_ok, bind_Ok by (cbn [ncols nrows transpose]; now rewrite HrC).
  rewrite np_matmul_ok, bind_Ok
    by (cbn [ncols nrows transpose matmul noise_precision mscale eye]; now rewrite y_rows).
  rewrite np_matmul_ok, bind_Ok by (now rewrite HcP, m0_rows).
  rewrite np_madd_ok, bind_Ok
    by (cbn [ncols nrows transpose matmul]; now rewrite ?HrP, ?HcC, ?y_cols, ?m0_cols).
  rewrite np_matmul_ok by (cbn [ncols nrows transpose matmul madd]; now rewrite HSig, HcC).
  reflexivity.
Qed.

(** Lines 118-131 up to the solver. *)
Lemma posterior_steps C0 :
  inv (negb (Reqb sig 0)) P0 = Ok C0 ->
  posterior =
  (Sig <- (if negb (Reqb sig 0 || Reqb gam 0)
           then lstsq normal (eye M) (- 1)
           else Raise (OtherError "LinAlgError")) ;;
   m_phi <- posterior_mean Sig P0 GAI CC y m0 ;;
   Ok (Sig, GAI, CC)).
Proof.
  intros Hinv. unfold mmlenn_posterior.
  rewrite (proj2 (Reqb_false sigi 0) sigi_nonzero). cbv zeta.
  rewrite size_y, Hinv, bind_Ok, design_ok, bind_Ok, posterior_Sig_steps.
  reflexivity.
Qed.

(** A noise scale of zero makes the arrays non-finite, and the solver
    raises, whatever the phase. *)
Lemma mmlenn_zero_scale C0 :
  sig = 0 \/ gam = 0 ->
  inv (negb (Reqb sig 0)) P0 = Ok C0 ->
  objective = Raise (OtherError "LinAlgError").
Proof.
  intros Hzero Hinv. unfold _mmlenn. rewrite (posterior_steps C0 Hinv).
  replace (Reqb sig 0 || Reqb gam 0)%bool with true; [reflexivity|].
  symmetry. apply orb_true_iff.
  destruct Hzero as [H | H]; [left | right]; now apply Reqb_true.
Qed.

Lemma posterior_ok C0 Sig :
  sig <> 0 -> gam <> 0 ->
  inv true P0 = Ok C0 ->
  lstsq normal (eye M) (- 1) = Ok Sig ->
  ncols Sig = (2 + n + 1)%nat ->
  posterior = Ok (Sig, GAI, CC).
Proof.
  intros Hsig Hgam Hinv Hls HSig.
  pose proof (proj2 (Reqb_false sig 0) Hsig) as Es.
  pose proof (proj2 (Reqb_false gam 0) Hgam) as Eg.
  rewrite (posterior_steps C0) by (now rewrite Es).
  rewrite Es, Eg. cbn [orb negb].
  rewrite Hls, bind_Ok, (posterior_mean_ok Sig HSig), bind_Ok. reflexivity.
Qed.


Lemma inverse_raises e :
  inv (negb (Reqb sig 0)) P0 = Raise e -> objective = Raise e.
Proof.
  intros Hinv. unfold _mmlenn, mmlenn_posterior.
  rewrite (proj2 (Reqb_false sigi 0) sigi_nonzero). cbv zeta.
  now rewrite size_y, Hinv.
Qed.

(** The phase test of line 133 decides the branch once lines 118-131
    have run. *)
Lemma mmlenn_outside_interval Sig G C :
  posterior = Ok (Sig, G, C) ->
  0 < phi \/ phi < - PI ->
  objective = Ok PInf.
Proof.
  intros Hpost Hout. unfold _mmlenn. rewrite Hpost, bind_Ok.
  destruct Hout as [Hpos | Hneg].
  - rewrite (proj2 (Rleb_false phi 0) Hpos), andb_false_r. reflexivity.
  - rewrite (proj2 (Rleb_false (- PI) phi) Hneg). reflexivity.
Qed.

Lemma mmlenn_inside_interval Sig G C :
  posterior = Ok (Sig, G, C) ->
  - PI <= phi <= 0 ->
  objective = mmlenn_out eig float_complex sig gam (size y) Sig G C y.
Proof.
  intros Hpost [Hlo Hhi]. unfold _mmlenn. rewrite Hpost, bind_Ok.
  rewrite (proj2 (Rleb_true (- PI) phi) Hlo), (proj2 (Rleb_true phi 0) Hhi).
  reflexivity.
Qed.

(** Lines 135-137 for real eigenvalues. *)
Lemma mmlenn_out_real Sig vals :
  nrows Sig = (2 + n + 1)%nat ->
  ncols Sig = (2 + n + 1)%nat ->
  eig Sig = Ok (RealEig vals) ->
  mmlenn_out eig float_complex sig gam N Sig GAI CC y =
  Ok (np_add
        (Fin (INR N * ln (gam ^ 2)
              + float_ (matmul (matmul (transpose y) GAI) y)
              - float_ (matmul (transpose (matmul (matmul Sig (transpose CC))
                                             (matmul GAI y)))
                          (matmul (matmul (transpose CC) GAI) y))))
        (np_sum_log vals)).
Proof.
  intros HSigr HSig Heig.
  destruct CC_shape as (HrC & HcC).
  unfold mmlenn_out. rewrite Heig, bind_Ok.
  rewrite np_matmul_ok, bind_Ok by (cbn [ncols nrows transpose]; now rewrite y_rows).
  rewrite np_matmul_ok, bind_Ok by (cbn [ncols nrows transpose matmul]; now rewrite y_rows).
  rewrite np_matmul_ok, bind_Ok by (cbn [ncols nrows transpose]; now rewrite HSig, HcC).
  rewrite np_matmul_ok, bind_Ok by (cbn [ncols nrows]; now rewrite y_rows).
  rewrite np_matmul_ok, bind_Ok by (cbn [ncols nrows transpose matmul]; now rewrite HrC).
  rewrite np_matmul_ok, bind_Ok by (cbn [ncols nrows transpose]; now rewrite HrC).
  rewrite np_matmul_ok, bind_Ok by (cbn [ncols nrows transpose matmul]; now rewrite y_rows).
  rewrite np_matmul_ok, bind_Ok
    by (cbn [ncols nrows transpose matmul]; now rewrite HSigr, HcC).
  replace (Nat.eqb (size (matmul (matmul (transpose y) GAI) y)) 1) with true
    by (unfold size; cbn [ncols nrows transpose matmul]; now rewrite y_cols).
  cbn [negb]. rewrite np_add_fin_parts, sum_log_noise.
  do 3 f_equal. unfold Rdiv. ring.
Qed.


(** C4, amended: on a window whose shapes fit, with [sigi], [sig] and
    [gam] not zero, a phase in [-pi, 0], [np.linalg.inv] and the solver
    returning and real eigenvalues [vals] of [Sig], [_mmlenn] returns
    [N*log(gam^2) + sum(log(vals)) + y'.GAI.y
     - (Sig.CC'.GAI.y)'.(CC'.GAI.y)], where [P0] is the diagonal array
    of [1/sigi^2, 1/sigi^2, k^aa/sig^2] (the powers in 64-bit
    integers), [GAI = I/gam^2], [CC] holds the even rows of
    [a1 | a2 | h*AA.B] and [Sig] is what the solver returns for
    [P0 + CC'.GAI.CC].  The sum of logarithms is NaN when an eigenvalue
    is negative. *)
Theorem mmlenn_value (C0 Sig : matrix) (vals : list R) :
  sig <> 0 -> gam <> 0 ->
  inv true P0 = Ok C0 ->
  lstsq normal (eye M) (- 1) = Ok Sig ->
  nrows Sig = (2 + n + 1)%nat -> ncols Sig = (2 + n + 1)%nat ->
  eig Sig = Ok (RealEig vals) ->
  - PI <= phi <= 0 ->
  (at_ P0 0 0 = 1 / sigi / sigi /\ at_ P0 1 1 = 1 / sigi / sigi /\
   (forall k, (1 <= k <= n + 1)%nat ->
      at_ P0 (k + 1) (k + 1)
      = 1 / sig / sig * IZR (wrap64 (Z.of_nat k ^ Z.of_nat aa))) /\
   (forall r c, r <> c -> at_ P0 r c = 0)) /\
  (forall r c, at_ GAI r c = if Nat.eqb r c then 1 / gam / gam else 0) /\
  (forall r,
     at_ CC r 0 = at_ a1 ((2 * r) mod nrows a1)%nat ((2 * r) / nrows a1)%nat /\
     at_ CC r 1 = at_ a2 ((2 * r) mod nrows a2)%nat ((2 * r) / nrows a2)%nat /\
     forall j, at_ CC r (2 + j)
               = h * rsum (ncols AA) (fun k => at_ AA (2 * r) k * at_ B k j)) /\
  let data := float_ (matmul (matmul (transpose y) GAI) y) in
  let fit := float_ (matmul (transpose (matmul (matmul Sig (transpose CC))
                                         (matmul GAI y)))
                       (matmul (matmul (transpose CC) GAI) y)) in
  objective = Ok (np_add (Fin (INR N * ln (gam ^ 2) + data - fit)) (np_sum_log vals)) /\
  ((forall v, In v vals -> 0 < v) ->
   objective = Ok (Fin (INR N * ln (gam ^ 2) + vsum (map ln vals) + data - fit))) /\
  ((exists v, In v vals /\ v < 0) -> objective = Ok NaN).
Proof.
  intros Hsig Hgam Hinv Hls HSigr HSig Heig Hphi.
  assert (Hval : objective
                 = Ok (np_add
                         (Fin (INR N * ln (gam ^ 2)
                               + float_ (matmul (matmul (transpose y) GAI) y)
                               - float_ (matmul
                                           (transpose (matmul (matmul Sig (transpose CC))
                                                         (matmul GAI y)))
                                           (matmul (matmul (transpose CC) GAI) y))))
                         (np_sum_log vals))).
  { rewrite (mmlenn_inside_interval Sig GAI CC
               (posterior_ok C0 Sig Hsig Hgam Hinv Hls HSig) Hphi).
    rewrite size_y. now apply mmlenn_out_real. }
  split; [|split; [|split]].
  - unfold prior_precision. split; [reflexivity|]. split; [reflexivity|]. split.
    + intros k Hk. cbn [at_ diag]. rewrite Nat.eqb_refl.
      rewrite (nth_prior_list _ _ n) by lia.
      replace (Nat.ltb (k + 1) 2) with false by (symmetry; apply Nat.ltb_ge; lia).
      now replace (k + 1 - 1)%nat with k by lia.
    + intros r c Hrc. cbn [at_ diag].
      now rewrite (proj2 (Nat.eqb_neq r c) Hrc).
  - intros r c. unfold noise_precision. cbn [at_ mscale eye].
    destruct (Nat.eqb r c); ring.
  - intros r. split; [reflexivity|]. split; [reflexivity|]. intros j.
    unfold design_CC, design_CC1.
    cbn [at_ even_rows hstack ncols reshape_F_col mscale matmul Nat.add].
    cbn [Nat.ltb Nat.leb Nat.sub]. now rewrite Nat.sub_0_r.
  - cbv zeta. split; [exact Hval|]. split.
    + intros Hpos. rewrite Hval, (np_sum_log_pos vals Hpos). cbn [np_add].
      do 2 f_equal. ring.
    + intros Hneg. rewrite Hval, (np_sum_log_neg vals Hneg). reflexivity.
Qed.

End ObjectiveFacts.

(** ** The sample window: two samples, degree two *)

Lemma mmlenn_sample_zero_scale pp :
  pp_sig pp = 0 \/ pp_gam pp = 0 ->
  mmlenn_sample pp = Raise (OtherError "LinAlgError").
Proof.
  intros Hzero. unfold mmlenn_sample.
  apply (mmlenn_zero_scale inv_sample lstsq_sample eig_sample float_complex_sample
           pp 1 [0; 1] (zeros 4 4) (zeros 2 2) (zeros 2 2) (column [1; 2]) 2 5 1
           (zeros 5 1) 3 2 2) with (C0 := prior_precision 3 (pp_sig pp) 2 2);
    try reflexivity; try lra; exact Hzero.
Qed.

Lemma mmlenn_sample_outside pp :
  pp_sig pp <> 0 -> pp_gam pp <> 0 ->
  0 < pp_phi pp \/ pp_phi pp < - PI ->
  mmlenn_sample pp = Ok PInf.
Proof.
  intros Hsig Hgam Hout. unfold mmlenn_sample.
  eapply (mmlenn_outside_interval inv_sample lstsq_sample eig_sample float_complex_sample
            pp 1 [0; 1] (zeros 4 4) (zeros 2 2) (zeros 2 2) (column [1; 2]) 2 5 1
            (zeros 5 1) 3 2); [|exact Hout].
  apply (posterior_ok inv_sample lstsq_sample
           pp 1 [0; 1] (zeros 4 4) (zeros 2 2) (zeros 2 2) (column [1; 2]) 2 5 1
           (zeros 5 1) 3 2 2) with (C0 := prior_precision 3 (pp_sig pp) 2 2);
    try reflexivity; try lra; assumption.
Qed.

(** C4, as stated, fails: a candidate with phase 0, inside [-pi, 0], and
    noise scale [gam = 0] makes [GAI] non-finite; the solver raises
    [LinAlgError] and [_mmlenn] returns no value. *)
Lemma mmlenn_feasible_phase_raises :
  mmlenn_sample (mkHyper 1 0 0) = Raise (OtherError "LinAlgError").
Proof.
  apply mmlenn_sample_zero_scale. right. reflexivity.
Qed.



(** A candidate at the upper end of the interval, with scales 1 and
    eigenvalues 1 and 1. *)
Lemma mmlenn_value_witness :
  exists v, mmlenn_sample (mkHyper 1 1 0) = Ok (Fin v).
Proof.
  unfold mmlenn_sample.
  destruct (mmlenn_value inv_sample lstsq_sample eig_sample
              float_complex_sample (mkHyper 1 1 0) 1 [0; 1]
              (zeros 4 4) (zeros 2 2) (zeros 2 2) (column [1; 2]) 2 5 1 (zeros 5 1) 3 2 2
              eq_refl eq_refl eq_refl eq_refl eq_refl eq_refl eq_refl eq_refl eq_refl
              ltac:(lra) (prior_precision 3 1 2 2) (eye 5) [1; 1])
    as (_ & _ & _ & _ & Hpos & _);
    [simpl; lra | simpl; lra | reflexivity | reflexivity | reflexivity | reflexivity
    | reflexivity | simpl; pose proof PI_RGT_0; lra |].
  eexists. apply Hpos. intros v [<- | [<- | []]]; lra.
Defined.

(** ** Posterior Evaluator *)

Lemma rsum_nonneg n f : (forall k, (k < n)%nat -> 0 <= f k) -> 0 <= rsum n f.
Proof.
  induction n as [|n IH]; intros H; cbn [rsum].
  - lra.
  - assert (0 <= rsum n f) by (apply IH; intros; apply H; lia).
    assert (0 <= f n) by (apply H; lia). lra.
Qed.

Lemma rsum_zero_terms n f :
  (forall k, (k < n)%nat -> 0 <= f k) -> rsum n f = 0 ->
  forall k, (k < n)%nat -> f k = 0.
Proof.
  induction n as [|n IH]; intros Hpos Hsum k Hk; [lia|].
  cbn [rsum] in Hsum.
  assert (H1 : 0 <= rsum n f) by (apply rsum_nonneg; intros; apply Hpos; lia).
  assert (H2 : 0 <= f n) by (apply Hpos; lia).
  destruct (Nat.eq_dec k n) as [-> | Hne].
  - lra.
  - apply IH; [intros; apply Hpos; lia | lra | lia].
Qed.

Lemma rsum_zero n f : (forall k, (k < n)%nat -> f k = 0) -> rsum n f = 0.
Proof.
  intros H. rewrite (rsum_ext n f (fun _ => 0) H), rsum_const. lra.
Qed.



Lemma rsum_scal_r n x f : rsum n (fun k => f k * x) = rsum n f * x.
Proof.
  induction n as [|n IH]; cbn [rsum]; [lra | rewrite IH; lra].
Qed.


(** Summing against a row or a column of the identity picks one term. *)
Lemma rsum_delta_r n c f :
  (c < n)%nat ->
  rsum n (fun l => f l * (if Nat.eqb l c then 1 else 0)) = f c.
Proof.
  induction n as [|n IH]; intros Hc; [lia|]. cbn [rsum].
  destruct (Nat.eq_dec c n) as [-> | Hne].
  - rewrite Nat.eqb_refl, rsum_zero; [lra|].
    intros k Hk. replace (Nat.eqb k n) with false; [lra|].
    symmetry. apply Nat.eqb_neq. lia.
  - rewrite IH by lia. replace (Nat.eqb n c) with false; [lra|].
    symmetry. apply Nat.eqb_neq. lia.
Qed.

Lemma rsum_delta_l n r f :
  (r < n)%nat ->
  rsum n (fun k => (if Nat.eqb r k then 1 else 0) * f k) = f r.
Proof.
  intros Hr. rewrite <- (rsum_delta_r n r f Hr). apply rsum_ext.
  intros k _. rewrite (Nat.eqb_sym r k). lra.
Qed.

Lemma frob2_nonneg A : 0 <= frob2 A.
Proof.
  unfold frob2, msum. apply rsum_nonneg. intros r _.
  apply rsum_nonneg. intros c _. cbn [mmap at_]. nra.
Qed.

Lemma frob2_zero_entries A :
  frob2 A = 0 ->
  forall r c, (r < nrows A)%nat -> (c < ncols A)%nat -> at_ A r c = 0.
Proof.
  unfold frob2, msum. cbn [mmap nrows ncols at_]. intros H r c Hr Hc.
  assert (Hrow : rsum (ncols A) (fun c => at_ A r c * at_ A r c) = 0).
  { apply (rsum_zero_terms (nrows A)
             (fun r => rsum (ncols A) (fun c => at_ A r c * at_ A r c))); auto.
    intros k _. apply rsum_nonneg. intros; nra. }
  assert (Hsq : at_ A r c * at_ A r c = 0).
  { apply (rsum_zero_terms (ncols A) (fun c => at_ A r c * at_ A r c)); auto.
    intros; nra. }
  nra.
Qed.

Lemma frob2_of_zero A :
  (forall r c, (r < nrows A)%nat -> (c < ncols A)%nat -> at_ A r c = 0) ->
  frob2 A = 0.
Proof.
  intros H. unfold frob2, msum. cbn [mmap nrows ncols at_].
  apply rsum_zero. intros r Hr. apply rsum_zero. intros c Hc.
  rewrite (H r c Hr Hc). lra.
Qed.


Lemma diag_entry v r c :
  at_ (diag v) r c = if Nat.eqb r c then nth r v 0 else 0.
Proof. reflexivity. Qed.

Lemma diag_mul_inverse (u v : list R) :
  length u = length v ->
  (forall k, (k < length u)%nat -> nth k u 0 * nth k v 0 = 1) ->
  mat_eq (matmul (diag u) (diag v)) (eye (length u)).
Proof.
  intros Hlen Hinv. split; [reflexivity|]. split; [cbn; lia|].
  intros r c Hr Hc. cbn [matmul diag nrows ncols at_ eye] in *.
  rewrite (rsum_ext _ _ (fun k => (if Nat.eqb r k then 1 else 0)
                                   * (nth r u 0 * (if Nat.eqb k c then nth k v 0 else 0)))).
  2:{ intros k _. destruct (Nat.eqb r k); lra. }
  rewrite (rsum_delta_l (length u) r
             (fun k => nth r u 0 * (if Nat.eqb k c then nth k v 0 else 0))) by exact Hr.
  destruct (Nat.eqb r c); [now apply Hinv | lra].
Qed.

Section PosteriorFacts.

Variable lstsq : matrix -> matrix -> R -> result matrix.
Variable P0 GAI CC y m0 : matrix.
Variable M N : nat.

Hypothesis P0_rows : nrows P0 = M.
Hypothesis P0_cols : ncols P0 = M.
Hypothesis GAI_rows : nrows GAI = N.
Hypothesis GAI_cols : ncols GAI = N.
Hypothesis CC_rows : nrows CC = N.
Hypothesis CC_cols : ncols CC = M.
Hypothesis y_rows : nrows y = N.
Hypothesis y_cols : ncols y = 1%nat.
Hypothesis m0_rows : nrows m0 = M.
Hypothesis m0_cols : ncols m0 = 1%nat.




End PosteriorFacts.






(** ** Hyperparameter Optimizer *)





Section OptimizerFacts.

Variable minimize : (hyper -> npfloat) -> hyper -> option minimize_kwargs -> OptimizeResult.
Variable rng : Type.
Variable seed : Z -> rng.
Variable randn_1_2 : rng -> (R * R) * rng.
Variable rand : rng -> R * rng.
Variable objective : hyper -> npfloat.

Local Abbreviation after := (search_after minimize rng seed randn_1_2 rand objective).
Local Abbreviation result_no := (minimization minimize rng seed randn_1_2 rand objective).
Local Abbreviation pass := (restart_step minimize rng randn_1_2 rand objective).

Lemma search_after_S k :
  after (S k) = pass (after k) k.
Proof.
  unfold search_after. rewrite seq_S, fold_left_app. reflexivity.
Qed.

(** One pass either keeps the tracked pair or replaces it by the
    result of this pass, when that one is strictly smaller. *)
Lemma restart_step_cases k :
  let st := after k in
  let st' := after (S k) in
  let r := result_no (S k) in
  (np_ltb (opt_fun r) (st_fvalg st) = true /\
     st_pp1g st' = opt_x r /\ st_fvalg st' = opt_fun r) \/
  (np_ltb (opt_fun r) (st_fvalg st) = false /\
     st_pp1g st' = st_pp1g st /\ st_fvalg st' = st_fvalg st).
Proof.
  cbn zeta. rewrite search_after_S.
  unfold restart_step, minimization.
  destruct (restart_result minimize rng randn_1_2 rand objective
              (st_rng (after k))) as [[r pp0] g].
  cbn [fst].
  destruct (np_ltb (opt_fun r) (st_fvalg (after k))); [left | right]; auto.
Qed.

Lemma search_init_seeded :
  st_pp1g (after 0) = opt_x (result_no 0) /\
  st_fvalg (after 0) = opt_fun (result_no 0).
Proof.
  unfold search_after, minimization, search_init.
  cbn [seq fold_left].
  destruct (seeded_result minimize rng seed randn_1_2 rand objective) as [[r pp0] g].
  split; reflexivity.
Qed.

(** Every result comes from a call of [minimize] on the objective. *)
Lemma minimization_is_call i :
  exists x0 kw, result_no i = minimize objective x0 kw.
Proof.
  destruct i as [|j]; unfold minimization.
  - unfold seeded_result.
    destruct (draw_pp0 rng randn_1_2 rand (seed 1)) as [pp0 g].
    cbn [fst]. eauto.
  - unfold restart_result.
    destruct (draw_pp0 rng randn_1_2 rand (st_rng (after j))) as [pp0 g].
    cbn [fst]. eauto.
Qed.

(** Each of them is started at a point drawn by lines 236-238 or
    262-264. *)
Lemma minimization_starts_at_draw i :
  exists g kw,
    result_no i = minimize objective (fst (draw_pp0 rng randn_1_2 rand g)) kw.
Proof.
  destruct i as [|j]; unfold minimization.
  - unfold seeded_result. exists (seed 1).
    destruct (draw_pp0 rng randn_1_2 rand (seed 1)) as [pp0 g].
    cbn [fst]. eauto.
  - unfold restart_result. exists (st_rng (after j)).
    destruct (draw_pp0 rng randn_1_2 rand (st_rng (after j))) as [pp0 g].
    cbn [fst]. eauto.
Qed.

(** When no result is below [+inf] the tracked pair never changes. *)
Lemma search_all_infeasible k :
  (forall i, (i <= k)%nat -> opt_fun (result_no i) = PInf) ->
  st_pp1g (after k) = opt_x (result_no 0) /\ st_fvalg (after k) = PInf.
Proof.
  induction k as [|k IH]; intros Hall.
  - destruct search_init_seeded as [Hx Hf]. split; [exact Hx|].
    rewrite Hf. apply Hall. lia.
  - destruct IH as [Hx Hf]; [intros; apply Hall; lia|].
    destruct (restart_step_cases k) as [(Hlt & _ & _) | (_ & Hx' & Hf')].
    + rewrite Hf, Hall in Hlt by lia. discriminate.
    + rewrite Hx', Hf'. auto.
Qed.


Variable K : nat.
Hypothesis no_nan : forall i, (i <= K)%nat -> opt_fun (result_no i) <> NaN.



End OptimizerFacts.




Lemma minimize_to_infeasible_all_inf i :
  opt_fun (minimization minimize_to_infeasible unit (fun _ => tt)
             (fun g => ((1, 1), g)) (fun g => (/ 2, g)) objective_sample i) = PInf.
Proof.
  destruct (minimization_starts_at_draw minimize_to_infeasible unit (fun _ => tt)
              (fun g => ((1, 1), g)) (fun g => (/ 2, g)) objective_sample i)
    as (g & kw & Hcall).
  rewrite Hcall. unfold minimize_to_infeasible, objective_sample. cbn [opt_fun].
  rewrite mmlenn_sample_outside; [reflexivity | | |];
    cbn [draw_pp0 fst pp_sig pp_gam pp_phi]; lra.
Qed.

(** C7, as stated, fails: with every minimization at [+inf] the search
    still returns a point, as it does for a feasible fit. *)
Lemma no_feasible_fit_not_surfaced :
  ~ spec_no_feasible_fit_surfaced minimize_to_infeasible unit (fun _ => tt)
      (fun g => ((1, 1), g)) (fun g => (/ 2, g)) objective_sample.
Proof.
  unfold spec_no_feasible_fit_surfaced, hyper_search_outcome. intros Hclaim.
  eapply Hclaim; [|reflexivity].
  intros i _. apply minimize_to_infeasible_all_inf.
Qed.

(** C7, amended: when every one of the eleven minimizations reports
    [+inf], the search returns the point of the seeded minimization as an
    ordinary result, with [fvalg = +inf]. *)
Theorem all_infeasible_returns_seeded
    (minimize : (hyper -> npfloat) -> hyper -> option minimize_kwargs -> OptimizeResult)
    (rng : Type) (seed : Z -> rng) (randn_1_2 : rng -> (R * R) * rng)
    (rand : rng -> R * rng) (objective : hyper -> npfloat) :
  (forall i, (i <= 10)%nat ->
     opt_fun (minimization minimize rng seed randn_1_2 rand objective i) = PInf) ->
  hyper_search_outcome minimize rng seed randn_1_2 rand objective =
    Ok (opt_x (minimization minimize rng seed randn_1_2 rand objective 0)) /\
  st_fvalg (search_after minimize rng seed randn_1_2 rand objective 10) = PInf.
Proof.
  intros Hall.
  destruct (search_all_infeasible minimize rng seed randn_1_2 rand objective 10 Hall)
    as [Hx Hf].
  split; [|exact Hf].
  unfold hyper_search_outcome, hyper_search. now rewrite Hx.
Qed.

Lemma all_infeasible_returns_seeded_witness :
  st_fvalg (search_after minimize_to_infeasible unit (fun _ => tt)
              (fun g => ((1, 1), g)) (fun g => (/ 2, g)) objective_sample 10) = PInf.
Proof.
  apply (all_infeasible_returns_seeded minimize_to_infeasible unit (fun _ => tt)
           (fun g => ((1, 1), g)) (fun g => (/ 2, g)) objective_sample).
  intros i _. apply minimize_to_infeasible_all_inf.
Defined.

(** ** Result Summarizer: fit statistics *)

Lemma np_div_fin x y : y <> 0 -> np_div (Fin x) (Fin y) = Fin (x / y).
Proof.
  intros H. cbn [np_div]. now replace (Reqb y 0) with false
    by (symmetry; now apply Reqb_false).
Qed.

Lemma np_div_zero_zero : np_div (Fin 0) (Fin 0) = NaN.
Proof.
  cbn [np_div]. now replace (Reqb 0 0) with true by (symmetry; now apply Reqb_true).
Qed.

Lemma np_div_pos_zero x : 0 < x -> np_div (Fin x) (Fin 0) = PInf.
Proof.
  intros H. cbn [np_div].
  replace (Reqb 0 0) with true by (symmetry; now apply Reqb_true).
  replace (Reqb x 0) with false by (symmetry; apply Reqb_false; lra).
  now replace (Rltb 0 x) with true by (symmetry; now apply Rltb_true).
Qed.

Lemma msum_nonneg A :
  (forall r c, 0 <= at_ A r c) -> 0 <= msum A.
Proof.
  intros H. unfold msum. apply rsum_nonneg. intros r _.
  apply rsum_nonneg. intros c _. apply H.
Qed.

(** [np.var] is NaN on an empty array and a non-negative real
    otherwise. *)
Lemma np_var_cases A :
  np_var A = NaN \/ exists v, np_var A = Fin v /\ 0 <= v.
Proof.
  unfold np_var, np_mean.
  destruct (Req_dec_T (INR (size A)) 0) as [Hz | Hnz].
  - left. rewrite Hz. cbn [np_div].
    replace (Reqb 0 0) with true by (symmetry; now apply Reqb_true).
    destruct (Reqb (msum A) 0); [reflexivity|].
    destruct (Rltb 0 (msum A)); reflexivity.
  - right. rewrite !np_div_fin by assumption. eexists. split; [reflexivity|].
    assert (0 < INR (size A)).
    { pose proof (pos_INR (size A)). lra. }
    apply Rmult_le_pos.
    + apply msum_nonneg. intros r c. cbn [mmap at_]. apply Rle_0_sqr.
    + left. now apply Rinv_0_lt_compat.
Qed.

Lemma SStotal_cases y1 :
  SStotal y1 = NaN \/ exists s, SStotal y1 = Fin s /\ 0 <= s.
Proof.
  unfold SStotal.
  destruct (Req_dec_T (INR (size y1)) 0) as [Hz | Hnz].
  - left. unfold np_var, np_mean. rewrite Hz. cbn [np_div].
    replace (Reqb 0 0) with true by (symmetry; now apply Reqb_true).
    destruct (Reqb (msum y1) 0); [reflexivity|].
    destruct (Rltb 0 (msum y1)); reflexivity.
  - destruct (np_var_cases y1) as [-> | (v & -> & Hv)].
    + left. reflexivity.
    + right. cbn [np_mul]. eexists. split; [reflexivity|].
      apply Rmult_le_pos; [|exact Hv].
      destruct (size y1) as [|k]; [now cbn in Hnz|].
      rewrite S_INR. pose proof (pos_INR k). lra.
Qed.

Section FitFacts.

Variable polyfit : list R -> matrix -> nat -> matrix.

Lemma SSresid_nonneg x1 y1 : 0 <= SSresid polyfit x1 y1.
Proof.
  unfold SSresid. cbn zeta. apply rsum_nonneg. intros r _.
  apply pow2_ge_0.
Qed.

(** [rsq] is a real number at most 1 when [SStotal] is not zero, and is
    never a float that compares greater than 1. *)
Lemma rsq_bound x1 y1 :
  np_ltb (Fin 1) (rsq polyfit x1 y1) = false /\
  (forall s, SStotal y1 = Fin s -> s <> 0 ->
     exists r, rsq polyfit x1 y1 = Fin r /\ r <= 1).
Proof.
  pose proof (SSresid_nonneg x1 y1) as Hres.
  unfold rsq.
  destruct (SStotal_cases y1) as [-> | (s & -> & Hs)].
  - split; [reflexivity | discriminate].
  - destruct (Req_dec_T s 0) as [-> | Hnz].
    + split.
      * destruct (Req_dec_T (SSresid polyfit x1 y1) 0) as [-> | Hpos].
        -- now rewrite np_div_zero_zero.
        -- rewrite np_div_pos_zero by lra. reflexivity.
      * intros s' [= <-] Hs'. congruence.
    + assert (Hq : 0 <= SSresid polyfit x1 y1 / s).
      { apply Rmult_le_pos; [exact Hres|].
        left. apply Rinv_0_lt_compat. lra. }
      rewrite np_div_fin by assumption. cbn [np_sub]. split.
      * cbn [np_ltb]. apply Rltb_false. lra.
      * intros s' _ _. eexists. split; [reflexivity|]. lra.
Qed.

End FitFacts.

(** C9, as stated, fails: when the recovered force is zero everywhere the
    fit is exact, [SSresid] and [SStotal] are both zero, and [rsq] is NaN,
    which is not [<= 1]. *)
Lemma rsq_nan_on_constant_force :
  np_leb (fit_rsq polyfit_zero 3 1 0 [0; 1] (ones 4 3) (zeros 5 1) 5) (Fin 1) = false.
Proof.
  unfold fit_rsq, rsq.
  assert (Hres : SSresid polyfit_zero (drive_voltage 3 1 0 [0; 1])
                   (recovered_force (ones 4 3) (zeros 5 1) 5) = 0).
  { unfold SSresid, recovered_force, polyfit_zero. cbn. lra. }
  assert (Htot : SStotal (recovered_force (ones 4 3) (zeros 5 1) 5) = Fin 0).
  { unfold SStotal, np_var, np_mean, recovered_force.
    assert (Hsize : INR (size (matmul (odd_rows (ones 4 3))
                                 (row_slice (zeros 5 1) 2 (5 + 1)))) <> 0).
    { cbn. lra. }
    rewrite !np_div_fin by exact Hsize.
    cbn [np_mul]. f_equal. cbn. lra. }
  rewrite Hres, Htot, np_div_zero_zero. reflexivity.
Qed.

(** C9, amended: [rsq = 1 - SSresid/SStotal] never compares greater than
    1, and whenever [SStotal] is a non-zero number [rsq] is a real number
    [<= 1] (possibly negative). *)
Theorem rsq_at_most_one
    (polyfit : list R -> matrix -> nat -> matrix)
    (Vac w_ang phi : R) (tt1 : list R) (B m_phi : matrix) (M : nat) :
  np_ltb (Fin 1) (fit_rsq polyfit Vac w_ang phi tt1 B m_phi M) = false /\
  (forall s, SStotal (recovered_force B m_phi M) = Fin s -> s <> 0 ->
     exists r, fit_rsq polyfit Vac w_ang phi tt1 B m_phi M = Fin r /\ r <= 1).
Proof.
  unfold fit_rsq. apply rsq_bound.
Qed.

(** Two samples with recovered force 1 and 3: [SStotal] is 1. *)
Lemma rsq_at_most_one_witness :
  exists r, fit_rsq polyfit_zero 3 1 0 [0; 1] basis_sample (column [0; 0; 1]) 3 = Fin r
            /\ r <= 1.
Proof.
  assert (Hsize : INR (size (recovered_force basis_sample (column [0; 0; 1]) 3)) <> 0).
  { cbn. lra. }
  apply (rsq_at_most_one polyfit_zero 3 1 0 [0; 1] basis_sample (column [0; 0; 1]) 3)
    with (s := 1).
  - unfold SStotal, np_var, np_mean. rewrite !np_div_fin by exact Hsize.
    cbn [np_mul]. f_equal. cbn. lra.
  - lra.
Defined.

(** ** The pipeline *)

Lemma lookup_combine_absent x (names : list string) (vals : list pyobj) :
  ~ In x names -> lookup x (combine names vals) = None.
Proof.
  revert vals. induction names as [|k names IH]; intros vals Hnot.
  - reflexivity.
  - destruct vals as [|v vals]; [reflexivity|]. cbn [combine lookup].
    destruct (String.eqb x k) eqn:E.
    + apply String.eqb_eq in E. subst k. exfalso. apply Hnot. now left.
    + apply IH. intros Hin. apply Hnot. now right.
Qed.

Lemma lookup_app x (f g : frame) :
  lookup x (f ++ g) = match lookup x f with Some v => Some v | None => lookup x g end.
Proof.
  induction f as [|[k v] f IH]; cbn [app lookup]; [reflexivity|].
  destruct (String.eqb x k); [reflexivity | exact IH].
Qed.

Lemma mentions_false names x : mentions names x = false -> ~ In x names.
Proof.
  unfold mentions. intros H Hin.
  assert (existsb (String.eqb x) names = true).
  { apply existsb_exists. exists x. split; [exact Hin | apply String.eqb_refl]. }
  congruence.
Qed.

Lemma lookup_app_none x (f g : frame) :
  lookup x f = None -> lookup x g = None -> lookup x (f ++ g) = None.
Proof. intros Hf Hg. now rewrite lookup_app, Hf. Qed.

Section PipelineFacts.

Variable builtin_names : list string.
Variable inference_body :
  pyobj -> pyobj -> pyobj -> pyobj -> pyobj -> result (list pyobj).
Variable summary_setup : frame -> result (list pyobj).
Variable plot_first : frame -> result (list pyobj).
Variable fit_statistics : frame -> result (list pyobj).
Variable plot_last : frame -> result unit.
Variable force_expr : frame -> result pyobj.
Variable residual_expr : frame -> result pyobj.

(** A name that is neither a local variable, nor a global of the
    module, nor a builtin cannot be read. *)
Lemma load_name_unbound locals x :
  lookup x locals = None ->
  mentions module_names x = false -> mentions builtin_names x = false ->
  load_name builtin_names locals x = Raise (NameError x).
Proof.
  intros Hloc Hmod Hbi. unfold load_name. now rewrite Hloc, Hmod, Hbi.
Qed.

Lemma load_name_local locals x v :
  lookup x locals = Some v -> load_name builtin_names locals x = Ok v.
Proof. intros H. unfold load_name. now rewrite H. Qed.

Lemma load_name_module locals x :
  lookup x locals = None -> mentions module_names x = true ->
  load_name builtin_names locals x = Ok (PGlobal x).
Proof.
  intros Hloc Hmod. unfold load_name. now rewrite Hloc, Hmod.
Qed.

Hypothesis Rforce_not_builtin : mentions builtin_names "Rforce" = false.
Hypothesis S_not_builtin : mentions builtin_names "S" = false.

(** When [BayesianInference] returns its eighteen values, the call of
    [processResults] is never made: reading [Rforce] raises. *)
Lemma process_pixel_after_inference R_H wd n0 p graph verbose vals :
  BayesianInference inference_body R_H wd n0 p = Ok vals ->
  length vals = 18%nat ->
  process_pixel builtin_names inference_body summary_setup plot_first
    fit_statistics plot_last force_expr residual_expr
    R_H wd n0 p graph verbose = Raise (NameError "Rforce").
Proof.
  intros Hinf Hlen. unfold process_pixel. cbv zeta.
  rewrite load_name_module; [| reflexivity | reflexivity].
  rewrite bind_Ok.
  rewrite (load_name_local _ _ R_H) by reflexivity. rewrite bind_Ok.
  rewrite (load_name_local _ _ wd) by reflexivity. rewrite bind_Ok.
  rewrite (load_name_local _ _ n0) by reflexivity. rewrite bind_Ok.
  rewrite (load_name_local _ _ p) by reflexivity. rewrite bind_Ok.
  rewrite Hinf, bind_Ok, Hlen.
  change (negb (Nat.eqb 18 18)) with false. cbv iota.
  assert (Hfresh : forall x,
            mentions inference_names x = false ->
            lookup x (combine inference_names vals) = None).
  { intros x Hx. apply lookup_combine_absent. now apply mentions_false. }
  assert (Hloc : forall x v params,
            lookup x params = Some v ->
            lookup x (params ++ combine inference_names vals) = Some v).
  { intros x v params Hx. now rewrite lookup_app, Hx. }
  assert (Hnone : forall x params,
            lookup x params = None -> mentions inference_names x = false ->
            lookup x (params ++ combine inference_names vals) = None).
  { intros x params Hx Hm. rewrite lookup_app, Hx. now apply Hfresh. }
  rewrite load_name_module;
    [| apply Hnone; reflexivity | reflexivity].
  rewrite bind_Ok.
  rewrite (load_name_local _ _ p) by (apply Hloc; reflexivity). rewrite bind_Ok.
  rewrite (load_name_local _ _ R_H) by (apply Hloc; reflexivity). rewrite bind_Ok.
  rewrite (load_name_local _ _ wd) by (apply Hloc; reflexivity). rewrite bind_Ok.
  rewrite load_name_unbound;
    [apply bind_Raise | apply Hnone; reflexivity | reflexivity
     | exact Rforce_not_builtin].
Qed.

Lemma bind_Ok_inv {A B : Type} (m : result A) (k : A -> result B) (b : B) :
  bind m k = Ok b -> exists a, m = Ok a /\ k a = Ok b.
Proof.
  destruct m as [a | e]; cbn [bind]; intros H; [eauto | discriminate].
Qed.

(** [process_pixel] returns nothing: its outcome is always an
    exception. *)
Lemma process_pixel_never_returns R_H wd n0 p graph verbose r :
  process_pixel builtin_names inference_body summary_setup plot_first
    fit_statistics plot_last force_expr residual_expr
    R_H wd n0 p graph verbose <> Ok r.
Proof.
  destruct (BayesianInference inference_body R_H wd n0 p) as [vals | e] eqn:Hinf.
  - destruct (Nat.eq_dec (length vals) 18) as [Hlen | Hlen].
    + rewrite (process_pixel_after_inference _ _ _ _ _ _ vals Hinf Hlen).
      discriminate.
    + unfold process_pixel. cbv zeta.
      rewrite load_name_module; [| reflexivity | reflexivity].
      rewrite bind_Ok.
      rewrite (load_name_local _ _ R_H) by reflexivity. rewrite bind_Ok.
      rewrite (load_name_local _ _ wd) by reflexivity. rewrite bind_Ok.
      rewrite (load_name_local _ _ n0) by reflexivity. rewrite bind_Ok.
      rewrite (load_name_local _ _ p) by reflexivity. rewrite bind_Ok.
      rewrite Hinf, bind_Ok.
      replace (Nat.eqb (length vals) 18) with false
        by (symmetry; now apply Nat.eqb_neq).
      discriminate.
  - unfold process_pixel. cbv zeta.
    rewrite load_name_module; [| reflexivity | reflexivity].
    rewrite bind_Ok.
    rewrite (load_name_local _ _ R_H) by reflexivity. rewrite bind_Ok.
    rewrite (load_name_local _ _ wd) by reflexivity. rewrite bind_Ok.
    rewrite (load_name_local _ _ n0) by reflexivity. rewrite bind_Ok.
    rewrite (load_name_local _ _ p) by reflexivity. rewrite bind_Ok.
    rewrite Hinf. discriminate.
Qed.

(** An exception of [BayesianInference] leaves [process_pixel]
    unchanged. *)
Lemma process_pixel_propagates R_H wd n0 p graph verbose e :
  BayesianInference inference_body R_H wd n0 p = Raise e ->
  process_pixel builtin_names inference_body summary_setup plot_first
    fit_statistics plot_last force_expr residual_expr
    R_H wd n0 p graph verbose = Raise e.
Proof.
  intros Hinf. unfold process_pixel. cbv zeta.
  rewrite load_name_module; [| reflexivity | reflexivity].
  rewrite bind_Ok.
  rewrite (load_name_local _ _ R_H) by reflexivity. rewrite bind_Ok.
  rewrite (load_name_local _ _ wd) by reflexivity. rewrite bind_Ok.
  rewrite (load_name_local _ _ n0) by reflexivity. rewrite bind_Ok.
  rewrite (load_name_local _ _ p) by reflexivity. rewrite bind_Ok.
  rewrite Hinf. reflexivity.
Qed.

(** Without [graph], [processResults] returns nothing either: the tuple
    of line 419 reads the name [S]. *)
Lemma processResults_never_returns
    p R_H wd Rforce M Sig B m_phi y CC graph verbose r :
  truthy graph = false ->
  processResults builtin_names summary_setup plot_first fit_statistics
    plot_last force_expr residual_expr
    p R_H wd Rforce M Sig B m_phi y CC graph verbose <> Ok r.
Proof.
  intros Hgraph Hok. unfold processResults in Hok. cbv zeta in Hok.
  rewrite Hgraph in Hok.
  repeat (apply bind_Ok_inv in Hok;
          let a := fresh "a" in
          let Ha := fresh "Ha" in
          destruct Hok as (a & Ha & Hok)).
  match goal with
  | H : load_name _ ?f "S"%string = Ok _ |- _ =>
      assert (HS : lookup "S" f = None);
      [| rewrite (load_name_unbound f "S" HS eq_refl S_not_builtin) in H;
         discriminate]
  end.
  repeat apply lookup_app_none; try reflexivity;
    apply lookup_combine_absent, mentions_false; reflexivity.
Qed.

End PipelineFacts.

(** C1, as stated, fails: with an empty parameter dictionary the first
    statement of [BayesianInference] raises [KeyError], and that, not a
    [NameError], is what leaves [process_pixel]. *)
Lemma process_pixel_KeyError_on_empty_dict :
  ~ spec_always_NameError builtins_used inference_placeholder
      step_placeholder step_placeholder step_placeholder plot_placeholder
      expr_placeholder expr_placeholder.
Proof.
  intros Hclaim.
  destruct (Hclaim (PArray (zeros 1 4)) (PFloat 1) (PInt 0) (PDict [])
              (PBool false) (PBool false)) as (name & Hname).
  rewrite (process_pixel_propagates builtins_used inference_placeholder
             step_placeholder step_placeholder step_placeholder plot_placeholder
             expr_placeholder expr_placeholder _ _ _ _ _ _ (KeyError "Bayes.fac"))
    in Hname by reflexivity.
  discriminate.
Qed.

(** C1, amended: [process_pixel] never returns a result.  When
    [BayesianInference] returns its eighteen values the call raises
    [NameError] for [Rforce] before [processResults] is entered; an
    exception of [BayesianInference] itself leaves unchanged.
    [processResults] called without [graph] never returns either: its
    last statement reads the unbound name [S]. *)
Theorem process_pixel_never_produces_output
    (builtin_names : list string)
    (inference_body : pyobj -> pyobj -> pyobj -> pyobj -> pyobj -> result (list pyobj))
    (summary_setup plot_first fit_statistics : frame -> result (list pyobj))
    (plot_last : frame -> result unit)
    (force_expr residual_expr : frame -> result pyobj) :
  mentions builtin_names "Rforce" = false ->
  mentions builtin_names "S" = false ->
  let run := process_pixel builtin_names inference_body summary_setup plot_first
               fit_statistics plot_last force_expr residual_expr in
  let summarize := processResults builtin_names summary_setup plot_first
                     fit_statistics plot_last force_expr residual_expr in
  (forall R_H wd n0 p graph verbose r, run R_H wd n0 p graph verbose <> Ok r) /\
  (forall R_H wd n0 p graph verbose vals,
     BayesianInference inference_body R_H wd n0 p = Ok vals ->
     length vals = 18%nat ->
     run R_H wd n0 p graph verbose = Raise (NameError "Rforce")) /\
  (forall R_H wd n0 p graph verbose e,
     BayesianInference inference_body R_H wd n0 p = Raise e ->
     run R_H wd n0 p graph verbose = Raise e) /\
  (forall p R_H wd Rforce M Sig B m_phi y CC graph verbose r,
     truthy graph = false ->
     summarize p R_H wd Rforce M Sig B m_phi y CC graph verbose <> Ok r).
Proof.
  intros HR HS run summarize. unfold run, summarize.
  split; [|split; [|split]].
  - intros. now apply process_pixel_never_returns.
  - intros. now apply process_pixel_after_inference with (vals := vals).
  - intros. now apply process_pixel_propagates.
  - intros. now apply processResults_never_returns.
Qed.

(** With a dictionary that holds the key and an inference that returns,
    the exception is the [NameError] of [Rforce]. *)
Lemma process_pixel_never_produces_output_witness :
  process_pixel builtins_used inference_placeholder
    step_placeholder step_placeholder step_placeholder plot_placeholder
    expr_placeholder expr_placeholder
    (PArray (zeros 1 256)) (PFloat 56000) (PInt 0)
    (PDict [("Bayes.fac"%string, PInt 128)]) (PBool false) (PBool false)
  = Raise (NameError "Rforce").
Proof.
  apply (process_pixel_never_produces_output builtins_used inference_placeholder
           step_placeholder step_placeholder step_placeholder plot_placeholder
           expr_placeholder expr_placeholder eq_refl eq_refl)
    with (vals := repeat PNone 18); reflexivity.
Defined.

(** ** Design Matrix Constructor *)




Section DesignFacts.

Variable expm : matrix -> matrix.
Variable Qi h : R.



End DesignFacts.





(** * Further properties of the code *)

(** ** Design matrix: what its columns hold *)

Lemma rsum_pairs n f :
  rsum (2 * n) f = rsum n (fun j => f (2 * j)%nat + f (2 * j + 1)%nat).
Proof.
  induction n as [|n IH].
  - reflexivity.
  - replace (2 * S n)%nat with (S (S (2 * n))) by lia.
    cbn [rsum]. rewrite IH.
    replace (S (2 * n)) with (2 * n + 1)%nat by lia. lra.
Qed.

Lemma rsum_prefix n i g :
  (i <= n)%nat ->
  rsum n (fun j => if Nat.ltb j i then g j else 0) = rsum i g.
Proof.
  induction n as [|n IH]; intros Hi.
  - replace i with 0%nat by lia. reflexivity.
  - cbn [rsum]. destruct (Nat.eq_dec i (S n)) as [-> | Hne].
    + replace (Nat.ltb n (S n)) with true by (symmetry; apply Nat.ltb_lt; lia).
      cbn [rsum]. f_equal. apply rsum_ext. intros k Hk.
      now replace (Nat.ltb k (S n)) with true by (symmetry; apply Nat.ltb_lt; lia).
    + rewrite IH by lia.
      replace (Nat.ltb n i) with false by (symmetry; apply Nat.ltb_ge; lia).
      lra.
Qed.

(** The entries of the basis, as [_B_phin] leaves them. *)
Lemma B_phin_shape_rows_aux phi w tt n :
  (forall k c, at_ (_B_phin phi w tt n) (2 * k) c = 0) /\
  (forall k i, (k < length tt)%nat -> (i <= n)%nat ->
     at_ (_B_phin phi w tt n) (2 * k + 1) i = (sin (w * nth k tt 0 + phi)) ^ i).
Proof.
  unfold _B_phin. cbn zeta.
  destruct (B_phin_loop phi w tt (seq 0 (n + 1)) (zeros (2 * length tt) (n + 1)) eq_refl)
    as (_ & _ & Hat).
  split.
  - intros k c. rewrite Hat, written_even, andb_false_r. reflexivity.
  - intros k i Hk Hi. rewrite Hat, written_odd, existsb_seq by assumption.
    cbn [andb]. unfold sin_pow.
    replace ((2 * k + 1 - 1) / 2)%nat with k; [reflexivity|].
    replace (2 * k + 1 - 1)%nat with (k * 2)%nat by lia.
    symmetry. apply Nat.div_mul. discriminate.
Qed.

Section DesignColumns.

Variable expm : matrix -> matrix.
Variable Qi h : R.

(** Entries of [AA], block by block. *)
Lemma AA_entries N j k r c :
  (j < N)%nat -> (k < N)%nat -> (r < 2)%nat -> (c < 2)%nat ->
  at_ (build_AA expm Qi h N) (2 * j + r) (2 * k + c) =
  if Nat.ltb k j then at_ (step_block expm Qi h (j - k)) r c else 0.
Proof.
  intros Hj Hk Hlr Hlc. unfold build_AA. cbn zeta.
  destruct (build_AA_loop N (build_A1 (build_A expm Qi h N)) (seq 1 (N - 1))
              (zeros (2 * N) (2 * N)) eq_refl eq_refl) as (_ & _ & Hat).
  rewrite Hat by lia.
  divmod2 (2 * j + r)%nat.
  replace ((2 * j + r) / 2)%nat with j by lia.
  replace ((2 * j + r) mod 2)%nat with r by lia.
  destruct (Nat.ltb k j) eqn:Ekj.
  - apply Nat.ltb_lt in Ekj.
    replace (existsb (Nat.eqb j) (seq 1 (N - 1))) with true.
    2:{ symmetry. apply existsb_exists. exists j. split.
        - apply in_seq. lia.
        - apply Nat.eqb_refl. }
    replace (Nat.ltb (2 * k + c) (2 * j)) with true
      by (symmetry; apply Nat.ltb_lt; lia).
    cbn [andb]. unfold last_cols. cbn [at_].
    assert (HcA1 : ncols (build_A1 (build_A expm Qi h N)) = (2 * N)%nat).
    { unfold build_A1. cbn. apply (build_A_entries expm Qi h N). }
    rewrite HcA1.
    replace (2 * N - Nat.min (2 * j) (2 * N) + (2 * k + c))%nat
      with (2 * (N - j + k) + c)%nat by lia.
    rewrite build_A1_entries by lia.
    now replace (N - (N - j + k))%nat with (j - k)%nat by lia.
  - apply Nat.ltb_ge in Ekj.
    replace (Nat.ltb (2 * k + c) (2 * j)) with false
      by (symmetry; apply Nat.ltb_ge; lia).
    now rewrite andb_false_r.
Qed.

(** X1: row [i] of the first two columns of [CC] holds the top row of the
    [(i+1)]-step transition block [expm(L*h*(i+1))]: the displacement
    that a unit initial position, respectively a unit initial velocity,
    gives at sample [i]. *)
Theorem CC_initial_condition_columns N phi w tt n i :
  (i < N)%nat ->
  let CC := design_CC (build_AA expm Qi h N) (build_a1 expm Qi h N)
              (build_a2 expm Qi h N) (_B_phin phi w tt n) h in
  at_ CC i 0 = at_ (expm (mscale (INR (i + 1)) (mscale h (L_gen Qi)))) 0 0 /\
  at_ CC i 1 = at_ (expm (mscale (INR (i + 1)) (mscale h (L_gen Qi)))) 0 1.
Proof.
  intros Hi. cbn zeta.
  destruct (build_A_entries expm Qi h N) as (HrA & HcA & Hat).
  unfold design_CC, design_CC1, build_a1, build_a2.
  cbn [at_ even_rows hstack ncols nrows reshape_F_col even_cols odd_cols Nat.ltb Nat.leb].
  rewrite HrA.
  replace ((2 * i) mod 2)%nat with 0%nat by (divmod2 (2 * i)%nat; lia).
  replace ((2 * i) / 2)%nat with i by (divmod2 (2 * i)%nat; lia).
  cbn [Nat.sub Nat.add].
  split.
  - replace (2 * i)%nat with (2 * i + 0)%nat by lia. now rewrite Hat by lia.
  - now rewrite Hat by lia.
Qed.

(** X2: the remaining columns of [CC] are a discrete convolution: row [i]
    of column [2+c] is [h] times the sum, over the earlier samples [j < i],
    of the velocity-to-displacement response after [i-j] steps times the
    basis value [sin(w*tt[j]+phi)^c].  In particular row 0 of these
    columns is zero. *)
Theorem CC_forcing_columns N phi w tt n i c :
  length tt = N -> (i < N)%nat -> (c <= n)%nat ->
  let CC := design_CC (build_AA expm Qi h N) (build_a1 expm Qi h N)
              (build_a2 expm Qi h N) (_B_phin phi w tt n) h in
  at_ CC i (2 + c) =
  h * rsum i (fun j =>
        at_ (expm (mscale (INR (i - j)) (mscale h (L_gen Qi)))) 0 1
        * (sin (w * nth j tt 0 + phi)) ^ c).
Proof.
  intros Htt Hi Hc. cbn zeta.
  destruct (AA_shape expm Qi h N) as (HrAA & HcAA).
  destruct (B_phin_shape_rows_aux phi w tt n) as (Heven & Hodd).
  unfold design_CC, design_CC1, build_a1, build_a2.
  cbn [at_ even_rows hstack ncols nrows reshape_F_col even_cols odd_cols mscale matmul].
  replace (Nat.ltb (2 + c) (1 + 1)) with false
    by (symmetry; apply Nat.ltb_ge; lia).
  replace (2 + c - (1 + 1))%nat with c by lia.
  rewrite HcAA. f_equal.
  rewrite rsum_pairs.
  rewrite <- (rsum_prefix N i) by lia.
  apply rsum_ext. intros j Hj.
  rewrite Heven, Rmult_0_r, Rplus_0_l.
  rewrite Hodd by lia.
  replace (2 * i)%nat with (2 * i + 0)%nat at 1 by lia.
  rewrite AA_entries by lia.
  destruct (Nat.ltb j i); [reflexivity | lra].
Qed.

(** X3: [AA] is block Toeplitz: the block at block-row [j+1],
    block-column [k+1] is the block at [(j, k)].  What a force does to
    a later sample depends only on the number of steps between them. *)
Theorem AA_block_toeplitz N j k r c :
  (j + 1 < N)%nat -> (k + 1 < N)%nat -> (r < 2)%nat -> (c < 2)%nat ->
  at_ (build_AA expm Qi h N) (2 * (j + 1) + r) (2 * (k + 1) + c) =
  at_ (build_AA expm Qi h N) (2 * j + r) (2 * k + c).
Proof.
  intros Hj Hk Hlr Hlc. rewrite !AA_entries by lia.
  replace (j + 1 - (k + 1))%nat with (j - k)%nat by lia.
  destruct (Nat.ltb k j) eqn:E.
  - apply Nat.ltb_lt in E.
    now replace (Nat.ltb (k + 1) (j + 1)) with true by (symmetry; apply Nat.ltb_lt; lia).
  - apply Nat.ltb_ge in E.
    now replace (Nat.ltb (k + 1) (j + 1)) with false by (symmetry; apply Nat.ltb_ge; lia).
Qed.

End DesignColumns.

Lemma CC_initial_condition_columns_witness :
  let CC := design_CC (build_AA (fun X => X) 1 1 2) (build_a1 (fun X => X) 1 1 2)
              (build_a2 (fun X => X) 1 1 2) (_B_phin 0 1 [0; 1] 2) 1 in
  at_ CC 1 0 = at_ (mscale (INR (1 + 1)) (mscale 1 (L_gen 1))) 0 0 /\
  at_ CC 1 1 = at_ (mscale (INR (1 + 1)) (mscale 1 (L_gen 1))) 0 1.
Proof.
  apply (CC_initial_condition_columns (fun X => X) 1 1 2 0 1 [0; 1] 2 1). lia.
Defined.

Lemma CC_forcing_columns_witness :
  let CC := design_CC (build_AA (fun X => X) 1 1 2) (build_a1 (fun X => X) 1 1 2)
              (build_a2 (fun X => X) 1 1 2) (_B_phin 0 1 [0; 1] 2) 1 in
  at_ CC 1 (2 + 1) =
  1 * rsum 1 (fun j =>
        at_ (mscale (INR (1 - j)) (mscale 1 (L_gen 1))) 0 1
        * (sin (1 * nth j [0; 1] 0 + 0)) ^ 1).
Proof.
  apply (CC_forcing_columns (fun X => X) 1 1 2 0 1 [0; 1] 2 1 1);
    [reflexivity | lia | lia].
Defined.

Lemma AA_block_toeplitz_witness :
  at_ (build_AA (fun X => X) 1 1 3) (2 * (1 + 1) + 0) (2 * (0 + 1) + 1) =
  at_ (build_AA (fun X => X) 1 1 3) (2 * 1 + 0) (2 * 0 + 1).
Proof.
  apply (AA_block_toeplitz (fun X => X) 1 1 3 1 0 0 1); lia.
Defined.

(** ** Prior precision *)

Lemma wrap64_small z : (0 <= z < 2 ^ 63)%Z -> wrap64 z = z.
Proof.
  intros Hz. unfold wrap64. rewrite Z.mod_small; lia.
Qed.

Lemma IZR_pow_nat (k aa : nat) : IZR (Z.of_nat k ^ Z.of_nat aa) = INR k ^ aa.
Proof.
  rewrite <- pow_IZR. now rewrite <- INR_IZR_INZ.
Qed.

Lemma prior_power_exact (n aa k : nat) :
  (Z.of_nat (n + 1) ^ Z.of_nat aa < 2 ^ 63)%Z -> (k <= n + 1)%nat ->
  IZR (wrap64 (Z.of_nat k ^ Z.of_nat aa)) = INR k ^ aa.
Proof.
  intros Hfit Hk. rewrite wrap64_small; [apply IZR_pow_nat|].
  split; [apply Z.pow_nonneg; lia|].
  eapply Z.le_lt_trans; [|exact Hfit].
  apply Z.pow_le_mono_l. lia.
Qed.

(** X4: for non-zero [sigi] and [sig], and a degree [n] and exponent
    [aa] whose largest power [(n+1)^aa] fits a 64-bit integer, the prior
    precision [P0] is an M x M diagonal array, M = 2+n+1, whose diagonal
    is [1/sigi^2, 1/sigi^2, k^aa/sig^2] for k = 1..n+1; the diagonal is
    positive, so [P0] has an inverse on both sides, which is diagonal. *)
Theorem prior_precision_diagonal_inverse (sigi sig : R) (n aa : nat) :
  sigi <> 0 -> sig <> 0 ->
  (Z.of_nat (n + 1) ^ Z.of_nat aa < 2 ^ 63)%Z ->
  let P0 := prior_precision sigi sig n aa in
  nrows P0 = (2 + n + 1)%nat /\ ncols P0 = (2 + n + 1)%nat /\
  (forall r c, r <> c -> at_ P0 r c = 0) /\
  at_ P0 0 0 = 1 / sigi / sigi /\ at_ P0 1 1 = 1 / sigi / sigi /\
  (forall k, (1 <= k <= n + 1)%nat ->
     at_ P0 (k + 1) (k + 1) = 1 / sig / sig * INR k ^ aa) /\
  (forall r, (r < 2 + n + 1)%nat -> 0 < at_ P0 r r) /\
  exists C0,
    (forall r c, r <> c -> at_ C0 r c = 0) /\
    mat_eq (matmul P0 C0) (eye (2 + n + 1)) /\
    mat_eq (matmul C0 P0) (eye (2 + n + 1)).
Proof.
  intros Hsigi Hsig Hfit. cbn zeta. unfold prior_precision.
  set (u := [1 / sigi / sigi; 1 / sigi / sigi]
            ++ map (fun k => 1 / sig / sig * IZR (wrap64 (Z.of_nat k ^ Z.of_nat aa)))
                   (seq 1 (n + 1))).
  set (v := [sigi * sigi; sigi * sigi]
            ++ map (fun k => sig * sig / INR k ^ aa) (seq 1 (n + 1))).
  assert (Hu : length u = (2 + n + 1)%nat).
  { unfold u. rewrite length_app, length_map, length_seq. reflexivity. }
  assert (Hv : length v = (2 + n + 1)%nat).
  { unfold v. rewrite length_app, length_map, length_seq. reflexivity. }
  assert (Hpow : forall k, (1 <= k)%nat -> 0 < INR k ^ aa).
  { intros k Hk. apply pow_lt. apply lt_0_INR. lia. }
  assert (Hur : forall r, (r < 2 + n + 1)%nat ->
            nth r u 0 = if Nat.ltb r 2 then 1 / sigi / sigi
                        else 1 / sig / sig * INR (r - 1) ^ aa).
  { intros r Hr. unfold u. rewrite nth_prior_list by exact Hr.
    destruct (Nat.ltb r 2) eqn:E; [reflexivity|].
    apply Nat.ltb_ge in E. rewrite (prior_power_exact n) by (exact Hfit || lia).
    reflexivity. }
  assert (Hvr : forall r, (r < 2 + n + 1)%nat ->
            nth r v 0 = if Nat.ltb r 2 then sigi * sigi
                        else sig * sig / INR (r - 1) ^ aa).
  { intros r Hr. unfold v. now rewrite nth_prior_list. }
  assert (Hprod : forall k, (k < 2 + n + 1)%nat -> nth k u 0 * nth k v 0 = 1).
  { intros k Hk. rewrite Hur, Hvr by exact Hk.
    destruct (Nat.ltb k 2) eqn:E.
    - field. exact Hsigi.
    - apply Nat.ltb_ge in E. specialize (Hpow (k - 1)%nat ltac:(lia)).
      field. split; [lra | exact Hsig]. }
  split; [exact Hu|]. split; [exact Hu|].
  split; [|split; [|split; [|split; [|split]]]].
  - intros r c Hrc. rewrite diag_entry.
    now replace (Nat.eqb r c) with false by (symmetry; now apply Nat.eqb_neq).
  - rewrite diag_entry. cbn [Nat.eqb]. now rewrite Hur by lia.
  - rewrite diag_entry. cbn [Nat.eqb]. now rewrite Hur by lia.
  - intros k Hk. rewrite diag_entry, Nat.eqb_refl, Hur by lia.
    replace (Nat.ltb (k + 1) 2) with false by (symmetry; apply Nat.ltb_ge; lia).
    now replace (k + 1 - 1)%nat with k by lia.
  - intros r Hr. rewrite diag_entry, Nat.eqb_refl, Hur by exact Hr.
    destruct (Nat.ltb r 2) eqn:E.
    + unfold Rdiv. rewrite Rmult_1_l.
      assert (0 < sigi * sigi) by nra.
      rewrite <- Rinv_mult. now apply Rinv_0_lt_compat.
    + apply Nat.ltb_ge in E. specialize (Hpow (r - 1)%nat ltac:(lia)).
      assert (0 < sig * sig) by nra.
      apply Rmult_lt_0_compat; [|exact Hpow].
      unfold Rdiv. rewrite Rmult_1_l, <- Rinv_mult. now apply Rinv_0_lt_compat.
  - exists (diag v). split; [|split].
    + intros r c Hrc. rewrite diag_entry.
      now replace (Nat.eqb r c) with false by (symmetry; now apply Nat.eqb_neq).
    + rewrite <- Hu. apply diag_mul_inverse; [congruence|].
      intros k Hk. apply Hprod. lia.
    + rewrite <- Hv. apply diag_mul_inverse; [congruence|].
      intros k Hk. rewrite Rmult_comm. apply Hprod. lia.
Qed.

Lemma prior_precision_diagonal_inverse_witness :
  at_ (prior_precision 3 1 2 2) 3 3 = 1 / 1 / 1 * INR 2 ^ 2.
Proof.
  destruct (prior_precision_diagonal_inverse 3 1 2 2)
    as (_ & _ & _ & _ & _ & Hdiag & _); [lra | lra | reflexivity |].
  apply (Hdiag 2%nat). lia.
Defined.

(** ** Observation-noise precision *)

(** X5: with [GAI = I/gam^2] the data term [y'.GAI.y] of the objective is
    the sum of the squared observations divided by [gam^2]; it is never
    negative. *)
Theorem data_term_is_scaled_norm (y : matrix) (gam : R) :
  gam <> 0 -> ncols y = 1%nat ->
  let GAI := noise_precision gam (size y) in
  float_ (matmul (matmul (transpose y) GAI) y) =
    rsum (nrows y) (fun k => at_ y k 0 ^ 2) / (gam * gam) /\
  0 <= float_ (matmul (matmul (transpose y) GAI) y).
Proof.
  intros Hgam Hcol. cbn zeta.
  assert (Hval : float_ (matmul (matmul (transpose y) (noise_precision gam (size y))) y) =
                 rsum (nrows y) (fun k => at_ y k 0 ^ 2) / (gam * gam)).
  { unfold float_, noise_precision, size. rewrite Hcol, Nat.mul_1_r.
    cbn [matmul transpose mscale eye nrows ncols at_].
    unfold Rdiv at 3. rewrite <- rsum_scal_r. apply rsum_ext. intros k Hk.
    rewrite (rsum_ext _ _ (fun l => (at_ y l 0 * (1 / gam / gam))
                                     * (if Nat.eqb l k then 1 else 0))).
    2:{ intros l _. destruct (Nat.eqb l k); lra. }
    rewrite (rsum_delta_r (nrows y) k (fun l => at_ y l 0 * (1 / gam / gam))) by exact Hk.
    field. exact Hgam. }
  split; [exact Hval|]. rewrite Hval.
  apply Rmult_le_pos.
  - apply rsum_nonneg. intros k _. apply pow2_ge_0.
  - left. apply Rinv_0_lt_compat. nra.
Qed.

Lemma data_term_is_scaled_norm_witness :
  0 <= float_ (matmul (matmul (transpose (column [3; 4])) (noise_precision (/ 10) 2))
                 (column [3; 4])).
Proof.
  apply (data_term_is_scaled_norm (column [3; 4]) (/ 10)); [lra | reflexivity].
Defined.

(** ** Start points of the minimizations *)

(** X6: [np.random.rand()] returns a number in [[0, 1)]; so every start
    vector [pp0] that the program draws has non-negative noise scales and
    a phase in [(-pi, 0]]: the test of line 133 holds at the start
    vector, and a call of the objective there that gets through lines
    118-131 takes the feasible branch. *)
Theorem start_points_are_feasible
    (rng : Type) (randn_1_2 : rng -> (R * R) * rng) (rand : rng -> R * rng)
    (g : rng) :
  (forall g', 0 <= fst (rand g') < 1) ->
  let pp0 := fst (draw_pp0 rng randn_1_2 rand g) in
  0 <= pp_sig pp0 /\ 0 <= pp_gam pp0 /\ - PI < pp_phi pp0 <= 0 /\
  (Rleb (- PI) (pp_phi pp0) && Rleb (pp_phi pp0) 0)%bool = true /\
  forall inv lstsq eig float_complex w tt AA a1 a2 y n M h m0 sigi aa Sig GAI CC,
    mmlenn_posterior inv lstsq pp0 w tt AA a1 a2 y n M h m0 sigi aa = Ok (Sig, GAI, CC) ->
    _mmlenn inv lstsq eig float_complex pp0 w tt AA a1 a2 y n M h m0 sigi aa
    = mmlenn_out eig float_complex (pp_sig pp0) (pp_gam pp0) (size y) Sig GAI CC y.
Proof.
  intros Hrand. cbn zeta. unfold draw_pp0.
  destruct (randn_1_2 g) as [[a b] g1].
  pose proof (Hrand g1) as Hu.
  destruct (rand g1) as [u g2]. cbn [fst] in *. cbn [pp_sig pp_gam pp_phi].
  pose proof PI_RGT_0 as Hpi.
  assert (Hphi : - PI < - PI * u <= 0) by nra.
  assert (Htest : (Rleb (- PI) (- PI * u) && Rleb (- PI * u) 0)%bool = true).
  { rewrite (proj2 (Rleb_true (- PI) (- PI * u))) by lra.
    rewrite (proj2 (Rleb_true (- PI * u) 0)) by lra. reflexivity. }
  split; [apply pow2_ge_0|]. split; [apply pow2_ge_0|]. split; [exact Hphi|].
  split; [exact Htest|].
  intros inv lstsq eig float_complex w tt AA a1 a2 y n M h m0 sigi aa Sig GAI CC Hpost.
  unfold _mmlenn. rewrite Hpost, bind_Ok. cbn [pp_sig pp_gam pp_phi].
  now rewrite Htest.
Qed.

Lemma start_points_are_feasible_witness :
  - PI < pp_phi (fst (draw_pp0 nat (fun g => ((INR g, 1), S g)) (fun g => (/ 2, S g)) 0%nat))
  <= 0.
Proof.
  apply (start_points_are_feasible nat (fun g => ((INR g, 1), S g)) (fun g => (/ 2, S g))).
  intros g'. cbn [fst]. lra.
Defined.

(** ** The restart loop: ties and NaN *)

Section SearchTies.

Variable minimize : (hyper -> npfloat) -> hyper -> option minimize_kwargs -> OptimizeResult.
Variable rng : Type.
Variable seed : Z -> rng.
Variable randn_1_2 : rng -> (R * R) * rng.
Variable rand : rng -> R * rng.
Variable objective : hyper -> npfloat.

Local Abbreviation after := (search_after minimize rng seed randn_1_2 rand objective).
Local Abbreviation result_no := (minimization minimize rng seed randn_1_2 rand objective).

Lemma search_keeps_seeded k :
  (forall i, (1 <= i <= k)%nat ->
     np_ltb (opt_fun (result_no i)) (opt_fun (result_no 0)) = false) ->
  st_pp1g (after k) = opt_x (result_no 0) /\
  st_fvalg (after k) = opt_fun (result_no 0).
Proof.
  induction k as [|k IH]; intros Hall.
  - apply search_init_seeded.
  - destruct IH as [Hx Hf]; [intros; apply Hall; lia|].
    destruct (restart_step_cases minimize rng seed randn_1_2 rand objective k)
      as [(Hlt & _ & _) | (_ & Hx' & Hf')].
    + rewrite Hf, Hall in Hlt by lia. discriminate.
    + rewrite Hx', Hf'. auto.
Qed.

(** X7: the comparison of line 275 is strict, so a restart replaces the
    tracked result only when it is strictly smaller: when no restart is
    strictly below the seeded minimization, [pp1] is the point of the
    seeded minimization, also when some restart reaches the same
    value. *)
Theorem ties_keep_seeded_result :
  (forall i, (1 <= i <= 10)%nat ->
     np_ltb (opt_fun (result_no i)) (opt_fun (result_no 0)) = false) ->
  hyper_search minimize rng seed randn_1_2 rand objective = opt_x (result_no 0) /\
  st_fvalg (after 10) = opt_fun (result_no 0).
Proof.
  intros Hall. unfold hyper_search. now apply search_keeps_seeded.
Qed.

(** X8: a seeded minimization that reports NaN is never replaced: every
    comparison [optResult.fun < fvalg] with [fvalg = nan] is false, so
    [pp1] is the seeded point whatever the ten restarts find. *)
Theorem nan_seed_is_never_replaced :
  opt_fun (result_no 0) = NaN ->
  hyper_search minimize rng seed randn_1_2 rand objective = opt_x (result_no 0) /\
  st_fvalg (after 10) = NaN.
Proof.
  intros Hnan. rewrite <- Hnan. unfold hyper_search. apply search_keeps_seeded.
  intros i _. rewrite Hnan. now destruct (opt_fun (result_no i)).
Qed.

End SearchTies.

(** A minimizer that reports the constant 7 wherever it is started. *)
Lemma ties_keep_seeded_result_witness :
  let minimize := fun (f : hyper -> npfloat) (x0 : hyper) (_ : option minimize_kwargs) =>
                    mkOptimizeResult x0 (Fin 7) in
  hyper_search minimize nat Z.to_nat (fun g => ((INR g, 1), S g)) (fun g => (/ 2, S g))
    objective_sample
  = opt_x (minimization minimize nat Z.to_nat (fun g => ((INR g, 1), S g))
             (fun g => (/ 2, S g)) objective_sample 0).
Proof.
  intros minimize.
  apply (ties_keep_seeded_result minimize nat Z.to_nat (fun g => ((INR g, 1), S g))
           (fun g => (/ 2, S g)) objective_sample).
  intros i _.
  destruct (minimization_is_call minimize nat Z.to_nat (fun g => ((INR g, 1), S g))
              (fun g => (/ 2, S g)) objective_sample i) as (x0 & kw & ->).
  destruct (minimization_is_call minimize nat Z.to_nat (fun g => ((INR g, 1), S g))
              (fun g => (/ 2, S g)) objective_sample 0) as (x1 & kw1 & ->).
  cbn [minimize opt_fun np_ltb]. apply Rltb_false. lra.
Defined.

(** A minimizer that reports NaN on its first call (no keyword
    arguments) and 0 afterwards. *)
Lemma nan_seed_is_never_replaced_witness :
  let minimize := fun (f : hyper -> npfloat) (x0 : hyper) (kw : option minimize_kwargs) =>
                    mkOptimizeResult x0 (match kw with None => NaN | Some _ => Fin 0 end) in
  st_fvalg (search_after minimize nat Z.to_nat (fun g => ((INR g, 1), S g))
              (fun g => (/ 2, S g)) objective_sample 10) = NaN.
Proof.
  intros minimize.
  apply (nan_seed_is_never_replaced minimize nat Z.to_nat (fun g => ((INR g, 1), S g))
           (fun g => (/ 2, S g)) objective_sample).
  reflexivity.
Defined.

(** ** Relative root-mean-square error *)

Lemma np_norm_zero_iff A :
  np_norm A = 0 <->
  forall r c, (r < nrows A)%nat -> (c < ncols A)%nat -> at_ A r c = 0.
Proof.
  unfold np_norm. split.
  - intros H. apply frob2_zero_entries.
    apply sqrt_eq_0; [apply frob2_nonneg | exact H].
  - intros H. rewrite frob2_of_zero by exact H. apply sqrt_0.
Qed.

(** X9: when the observation [y] has a non-zero entry, [rrmse] is a
    non-negative real number, and it is zero exactly when [CC.m_phi]
    reproduces [y] entry by entry; when [y] is zero everywhere the
    division is by zero and [rrmse] is NaN or [+inf]. *)
Theorem rrmse_behaviour (y CC m_phi : matrix) :
  ((exists r c, (r < nrows y)%nat /\ (c < ncols y)%nat /\ at_ y r c <> 0) ->
   exists e, rrmse y CC m_phi = Fin e /\ 0 <= e /\
     (e = 0 <->
      forall r c, (r < nrows y)%nat -> (c < ncols y)%nat ->
        at_ (matmul CC m_phi) r c = at_ y r c)) /\
  ((forall r c, (r < nrows y)%nat -> (c < ncols y)%nat -> at_ y r c = 0) ->
   rrmse y CC m_phi = NaN \/ rrmse y CC m_phi = PInf).
Proof.
  unfold rrmse. split.
  - intros (r0 & c0 & Hr0 & Hc0 & Hne).
    assert (Hny : np_norm y <> 0).
    { intros H0. apply Hne. now apply (proj1 (np_norm_zero_iff y) H0). }
    assert (Hpos : 0 < np_norm y).
    { pose proof (sqrt_pos (frob2 y)). unfold np_norm in *. lra. }
    rewrite np_div_fin by exact Hny.
    eexists. split; [reflexivity|]. split.
    + apply Rmult_le_pos; [apply sqrt_pos|].
      left. now apply Rinv_0_lt_compat.
    + split.
      * intros He r c Hr Hc.
        assert (Hres : np_norm (msub y (matmul CC m_phi)) = 0).
        { apply Rmult_integral in He. destruct He as [He | He]; [exact He|].
          exfalso. apply (Rinv_neq_0_compat _ Hny). exact He. }
        pose proof (proj1 (np_norm_zero_iff _) Hres r c Hr Hc) as Hz.
        cbn [msub at_] in Hz. lra.
      * intros Hfit.
        assert (Hres : np_norm (msub y (matmul CC m_phi)) = 0).
        { apply np_norm_zero_iff. intros r c Hr Hc. cbn [msub at_ nrows ncols] in *.
          rewrite Hfit by assumption. lra. }
        rewrite Hres. unfold Rdiv. apply Rmult_0_l.
  - intros Hzero.
    rewrite (proj2 (np_norm_zero_iff y) Hzero).
    pose proof (sqrt_pos (frob2 (msub y (matmul CC m_phi)))) as Hge.
    fold (np_norm (msub y (matmul CC m_phi))) in Hge.
    destruct (Req_dec_T (np_norm (msub y (matmul CC m_phi))) 0) as [-> | Hne].
    + left. apply np_div_zero_zero.
    + right. apply np_div_pos_zero. lra.
Qed.

Lemma rrmse_behaviour_witness :
  exists e, rrmse (column [3; 4]) (eye 2) (column [3; 4]) = Fin e /\ 0 <= e.
Proof.
  destruct (proj1 (rrmse_behaviour (column [3; 4]) (eye 2) (column [3; 4])))
    as (e & He & Hpos & _).
  - exists 0%nat, 0%nat. cbn. repeat split; try lia. lra.
  - exists e. split; assumption.
Defined.

(** ** Fit statistics: the normalisation of [np.var] *)

(** X10: [np.var] divides by the number of entries, so
    [SStotal = (n-1)*np.var(y1)] is [(n-1)/n] times the sum of squared
    deviations; for two or more entries that are not all equal, [rsq] is
    [1 - n/(n-1) * SSresid/SSdev], which is at most the textbook value
    [1 - SSresid/SSdev]. *)
Theorem rsq_understates_r_squared
    (polyfit : list R -> matrix -> nat -> matrix) (x1 : list R) (y1 : matrix) :
  (2 <= size y1)%nat -> 0 < squared_deviations y1 ->
  let n := INR (size y1) in
  SStotal y1 = Fin ((n - 1) / n * squared_deviations y1) /\
  rsq polyfit x1 y1 =
    Fin (1 - n / (n - 1) * (SSresid polyfit x1 y1 / squared_deviations y1)) /\
  1 - n / (n - 1) * (SSresid polyfit x1 y1 / squared_deviations y1)
    <= 1 - SSresid polyfit x1 y1 / squared_deviations y1.
Proof.
  intros Hn Hdev. cbn zeta.
  assert (Hn2 : 2 <= INR (size y1)).
  { change 2 with (INR 2). now apply le_INR. }
  assert (Hnz : INR (size y1) <> 0) by lra.
  assert (Htot : SStotal y1 = Fin ((INR (size y1) - 1) / INR (size y1)
                                   * squared_deviations y1)).
  { unfold SStotal, np_var, np_mean. rewrite !np_div_fin by exact Hnz.
    cbn [np_mul]. f_equal. unfold squared_deviations. field. exact Hnz. }
  pose proof (SSresid_nonneg polyfit x1 y1) as Hres.
  split; [exact Htot|]. split.
  - unfold rsq. rewrite Htot.
    rewrite np_div_fin.
    + cbn [np_sub]. f_equal. field. repeat split; lra.
    + apply Rmult_integral_contrapositive. split; [|lra].
      apply Rmult_integral_contrapositive. split; [lra|].
      apply Rinv_neq_0_compat. exact Hnz.
  - assert (Hq : 0 <= SSresid polyfit x1 y1 / squared_deviations y1).
    { apply Rmult_le_pos; [exact Hres|]. left. now apply Rinv_0_lt_compat. }
    assert (Hratio : 1 <= INR (size y1) / (INR (size y1) - 1)).
    { apply (Rmult_le_reg_r (INR (size y1) - 1)); [lra|].
      unfold Rdiv. rewrite Rmult_assoc, Rinv_l by lra. lra. }
    nra.
Qed.

Lemma rsq_understates_r_squared_witness :
  SStotal (column [1; 3]) = Fin ((INR 2 - 1) / INR 2 * squared_deviations (column [1; 3])).
Proof.
  apply (rsq_understates_r_squared polyfit_zero [0; 1] (column [1; 3])).
  - cbn. lia.
  - unfold squared_deviations. cbn. lra.
Defined.

(** ** The measured force segment *)

(** X11: the slice [R[n0+1:n0+N1+1]] with the fixed [n0 = 1000] never
    raises; [R_seg] holds [min(N1, len(Rforce) - 1001)] samples, so it has
    the [N1] samples of the other sequences only when [Rforce] has at
    least [N1 + 1001] samples, and it is empty for a signal of 1001
    samples or fewer.  Its entry [k] is the mean-centred sample
    [1001 + k] in units of 1e-9. *)
Theorem force_segment_length_and_entries (Rforce : list R) (N1 : nat) :
  length (force_segment Rforce N1) = Nat.min N1 (length Rforce - 1001) /\
  ((length Rforce <= 1001)%nat -> force_segment Rforce N1 = []) /\
  (forall k, (k < length (force_segment Rforce N1))%nat ->
     nth k (force_segment Rforce N1) 0 =
     (nth (1001 + k) Rforce 0 - vsum Rforce / INR (length Rforce)) * 10 ^ 9).
Proof.
  unfold force_segment. cbn zeta.
  assert (Hlen : length (map (fun v => v * 10 ^ 9)
                           (firstn N1 (skipn (1000 + 1) (center Rforce))))
                 = Nat.min N1 (length Rforce - 1001)).
  { rewrite length_map, length_firstn, length_skipn. unfold center.
    rewrite length_map. lia. }
  split; [exact Hlen|]. split.
  - intros Hshort. apply length_zero_iff_nil. rewrite Hlen. lia.
  - intros k Hk. rewrite Hlen in Hk.
    rewrite (nth_indep _ 0 (0 * 10 ^ 9)) by (rewrite Hlen; exact Hk).
    rewrite (map_nth (fun v => v * 10 ^ 9)).
    rewrite nth_firstn.
    replace (Nat.ltb k N1) with true by (symmetry; apply Nat.ltb_lt; lia).
    rewrite nth_skipn. unfold center.
    rewrite (nth_indep _ 0 (0 - vsum Rforce / INR (length Rforce)))
      by (rewrite length_map; lia).
    rewrite (map_nth (fun x => x - vsum Rforce / INR (length Rforce))).
    reflexivity.
Qed.

Lemma force_segment_length_and_entries_witness :
  force_segment [1; 2; 3] 2 = [].
Proof.
  apply (force_segment_length_and_entries [1; 2; 3] 2). cbn. lia.
Defined.

(** ** The observation window *)

Lemma vsum_app u v : vsum (u ++ v) = vsum u + vsum v.
Proof.
  unfold vsum. induction u as [|a u IH]; cbn [app fold_right]; [lra | rewrite IH; lra].
Qed.

Lemma rsum_nth_vsum v : rsum (length v) (fun r => nth r v 0) = vsum v.
Proof.
  induction v as [|a v IH] using rev_ind.
  - reflexivity.
  - rewrite length_app, Nat.add_comm. cbn [length Nat.add rsum].
    rewrite vsum_app, app_nth2, Nat.sub_diag by lia. cbn [nth vsum fold_right].
    rewrite <- IH. rewrite Rplus_0_r. f_equal.
    apply rsum_ext. intros k Hk. now rewrite app_nth1.
Qed.

Lemma vsum_map_affine (a c : R) v :
  vsum (map (fun x => a * (x - c)) v) = a * (vsum v - INR (length v) * c).
Proof.
  unfold vsum. induction v as [|x v IH].
  - cbn. lra.
  - cbn [map fold_right length]. rewrite IH, S_INR. lra.
Qed.

(** X12: the observation vector is cut from the signal after the mean of
    the whole signal is removed: [y[k] = 1e9*(R_H[k] - mean(R_H))] for
    every [k] in the window.  When the window is the whole signal the
    observations sum to zero. *)
Theorem observation_is_centred_signal (R_H : list R) (N : nat) :
  (forall k, (k < N)%nat -> (k < length R_H)%nat ->
     at_ (observation R_H N) k 0 =
     10 ^ 9 * (nth k R_H 0 - vsum R_H / INR (length R_H))) /\
  (N = length R_H -> (1 <= N)%nat -> msum (observation R_H N) = 0).
Proof.
  unfold observation. cbn zeta. split.
  - intros k HkN Hk. cbn [column at_].
    set (mu := vsum R_H / INR (length R_H)).
    rewrite (nth_indep _ 0 (10 ^ 9 * 0))
      by (rewrite length_map, length_firstn, length_map; lia).
    rewrite (map_nth (fun v => 10 ^ 9 * v)), nth_firstn.
    replace (Nat.ltb k N) with true by (symmetry; now apply Nat.ltb_lt).
    rewrite (nth_indep _ 0 (0 - mu)) by (rewrite length_map; lia).
    now rewrite (map_nth (fun v => v - mu)).
  - intros HN Hpos. subst N.
    rewrite <- (length_map (fun v => v - vsum R_H / INR (length R_H)) R_H) at 1.
    rewrite firstn_all, map_map.
    unfold msum. cbn [nrows ncols column at_ rsum].
    rewrite (rsum_ext _ _ (fun r => nth r (map (fun x => 10 ^ 9 * (x - vsum R_H / INR (length R_H))) R_H) 0))
      by (intros; lra).
    rewrite rsum_nth_vsum, vsum_map_affine.
    assert (Hn : INR (length R_H) <> 0).
    { apply not_0_INR. lia. }
    field. exact Hn.
Qed.

Lemma observation_is_centred_signal_witness :
  msum (observation [1; 2; 6] 3) = 0.
Proof.
  apply (observation_is_centred_signal [1; 2; 6] 3); [reflexivity | lia].
Defined.

(** ** The prior mean *)

(** X13: the prior mean needs two observations: with fewer than two rows
    in [y] the reads [y[0]], [y[1]] raise [IndexError].  Otherwise [m0] has
    [M = 2+n+1] rows, as many as [P0] has columns; its first two entries
    are [y[0] - (y[1]-y[0])] and [(y[1]-y[0])/h], the rest is zero, and
    moving the first entry one step [h] ahead at the speed of the second
    gives [y[0]]. *)
Theorem prior_mean_behaviour (y : matrix) (h : R) (n : nat) :
  ((nrows y < 2)%nat -> prior_mean y h n = Raise (OtherError "IndexError")) /\
  ((2 <= nrows y)%nat -> ncols y = 1%nat ->
   exists m0, prior_mean y h n = Ok m0 /\
     nrows m0 = (2 + n + 1)%nat /\ ncols m0 = 1%nat /\
     (forall sigi sig aa, nrows m0 = ncols (prior_precision sigi sig n aa)) /\
     at_ m0 0 0 = at_ y 0 0 - (at_ y 1 0 - at_ y 0 0) /\
     at_ m0 1 0 = (at_ y 1 0 - at_ y 0 0) / h /\
     (forall r, (2 <= r)%nat -> at_ m0 r 0 = 0) /\
     (h <> 0 -> at_ m0 0 0 + h * at_ m0 1 0 = at_ y 0 0)).
Proof.
  unfold prior_mean, getrow. split.
  - intros Hshort. destruct (nrows y) as [|[|k]]; [reflexivity | reflexivity | lia].
  - intros Hlong Hcol.
    replace (Nat.ltb 0 (nrows y)) with true by (symmetry; apply Nat.ltb_lt; lia).
    replace (Nat.ltb 1 (nrows y)) with true by (symmetry; apply Nat.ltb_lt; lia).
    cbn [bind]. eexists. split; [reflexivity|].
    split; [cbn; lia|]. split; [exact Hcol|]. split.
    { intros sigi sig aa.
      unfold prior_precision. cbn [ncols diag nrows vstack msub mdiv zeros].
      rewrite length_app, length_map, length_seq. cbn [length]. lia. }
    split; [reflexivity|]. split; [reflexivity|]. split.
    + intros r Hr. cbn [vstack msub mdiv zeros nrows ncols at_ Nat.add].
      destruct r as [|[|r]]; [lia | lia | reflexivity].
    + intros Hh. cbn [vstack msub mdiv zeros nrows ncols at_ Nat.add Nat.ltb Nat.leb Nat.sub].
      field. exact Hh.
Qed.

Lemma prior_mean_behaviour_witness :
  prior_mean (column [5]) 1 2 = Raise (OtherError "IndexError").
Proof.
  apply (prior_mean_behaviour (column [5]) 1 2). cbn. lia.
Defined.

(** ** The window set-up *)

Lemma py_truediv_Ok a b q : py_truediv a b = Ok q -> b <> 0 /\ q = a / b.
Proof.
  unfold py_truediv. destruct (Reqb b 0) eqn:E; [discriminate|].
  intros [= <-]. split; [now apply Reqb_false | reflexivity].
Qed.

Lemma py_truediv_nonzero a b : b <> 0 -> py_truediv a b = Ok (a / b).
Proof.
  intros H. unfold py_truediv.
  now replace (Reqb b 0) with false by (symmetry; now apply Reqb_false).
Qed.

Lemma py_truediv_zero a : py_truediv a 0 = Raise (OtherError "ZeroDivisionError").
Proof.
  unfold py_truediv. now replace (Reqb 0 0) with true by (symmetry; now apply Reqb_true).
Qed.

(** X14: lines 155-174 return exactly when the four keys ["Bayes.fac"],
    ["CL.Q"], ["CL.f0"], ["Sim.Tmax"] are present, the quality factor, the
    resonance frequency and the reduction factor are not zero, and the
    window [N = int(R_H.size/fac)] holds at least one sample.  Then
    [Qi = 1/Q], [w = wd/f0], [T = Tmax*f0*2*pi/fac] and the [N] steps of
    size [h] cover [T]. *)
Theorem inference_setup_succeeds_iff (size : nat) (wd : R) (p : params) :
  (forall s, inference_setup size wd p = Ok s ->
     exists fac Q f0 Tmax,
       read p "Bayes.fac" = Ok fac /\ read p "CL.Q" = Ok Q /\
       read p "CL.f0" = Ok f0 /\ read p "Sim.Tmax" = Ok Tmax /\
       num_val Q <> 0 /\ num_val f0 <> 0 /\ num_val fac <> 0 /\
       ws_N s = py_int (INR size / num_val fac) /\ (1 <= ws_N s)%Z /\
       ws_Qi s = 1 / num_val Q /\ ws_w s = wd / num_val f0 /\
       ws_T s = num_val Tmax * num_val f0 * 2 * PI / num_val fac /\
       ws_h s * IZR (ws_N s) = ws_T s) /\
  (forall fac Q f0 Tmax,
     read p "Bayes.fac" = Ok fac -> read p "CL.Q" = Ok Q ->
     read p "CL.f0" = Ok f0 -> read p "Sim.Tmax" = Ok Tmax ->
     num_val Q <> 0 -> num_val f0 <> 0 -> num_val fac <> 0 ->
     (1 <= py_int (INR size / num_val fac))%Z ->
     exists s, inference_setup size wd p = Ok s).
Proof.
  split.
  - intros s Hok. unfold inference_setup in Hok.
    apply bind_Ok_inv in Hok. destruct Hok as (fac & Hfac & Hok).
    apply bind_Ok_inv in Hok. destruct Hok as (Q & HQ & Hok).
    apply bind_Ok_inv in Hok. destruct Hok as (Qi & HQi & Hok).
    apply bind_Ok_inv in Hok. destruct Hok as (f0 & Hf0 & Hok).
    apply bind_Ok_inv in Hok. destruct Hok as (w & Hw & Hok).
    apply bind_Ok_inv in Hok. destruct Hok as (wr1 & Hwr1 & Hok).
    apply bind_Ok_inv in Hok. destruct Hok as (q & Hq & Hok).
    apply bind_Ok_inv in Hok. destruct Hok as (Tmax & HTmax & Hok).
    apply bind_Ok_inv in Hok. destruct Hok as (T & HT & Hok).
    destruct (Z.ltb (py_int q) 0) eqn:Eneg; [discriminate|].
    apply bind_Ok_inv in Hok. destruct Hok as (h & Hh & Hok).
    injection Hok as <-. cbn [ws_N ws_Qi ws_w ws_T ws_h].
    apply py_truediv_Ok in HQi, Hw, Hq, HT, Hh.
    destruct HQi as [HQnz ->], Hw as [Hwnz ->], Hq as [Hfnz ->],
             HT as [_ ->], Hh as [HNnz ->].
    rewrite Hf0 in Hwr1. injection Hwr1 as <-.
    assert (Hf0nz : num_val f0 <> 0) by (intros H0; apply Hwnz; rewrite H0; lra).
    apply Z.ltb_ge in Eneg.
    assert (HN1 : (1 <= py_int (INR size / num_val fac))%Z).
    { destruct (Z.eq_dec (py_int (INR size / num_val fac)) 0) as [E0 | Hne]; [|lia].
      exfalso. apply HNnz. now rewrite E0. }
    exists fac, Q, f0, Tmax.
    repeat (split; [assumption || reflexivity|]).
    split; [field; exact Hf0nz|].
    split; [reflexivity|].
    field. split; [exact Hfnz | exact HNnz].
  - intros fac Q f0 Tmax Hfac HQ Hf0 HTmax HQnz Hf0nz Hfnz HN.
    unfold inference_setup.
    rewrite Hfac, HQ, Hf0, HTmax. cbn [bind].
    rewrite (py_truediv_nonzero 1 _ HQnz). cbn [bind].
    rewrite py_truediv_nonzero by lra. cbn [bind].
    rewrite (py_truediv_nonzero (INR size) _ Hfnz). cbn [bind].
    rewrite (py_truediv_nonzero _ _ Hfnz). cbn [bind].
    replace (Z.ltb (py_int (INR size / num_val fac)) 0) with false
      by (symmetry; apply Z.ltb_ge; lia).
    rewrite py_truediv_nonzero.
    + cbn [bind]. eexists. reflexivity.
    + apply not_0_IZR. lia.
Qed.

Lemma py_int_INR_div a b :
  (0 < b)%nat -> py_int (INR a / INR b) = Z.of_nat (a / b).
Proof.
  intros Hb.
  assert (HbR : 0 < INR b) by (apply lt_0_INR; lia).
  pose proof (Nat.div_mod_eq a b) as Hdm.
  pose proof (Nat.mod_upper_bound a b ltac:(lia)) as Hmod.
  assert (Ha : INR a = INR b * INR (a / b) + INR (a mod b)).
  { rewrite <- mult_INR, <- plus_INR. now f_equal. }
  assert (Hr0 : 0 <= INR (a mod b)) by apply pos_INR.
  assert (Hr1 : INR (a mod b) < INR b) by (apply lt_INR; exact Hmod).
  assert (Hq : INR a / INR b = INR (a / b) + INR (a mod b) / INR b).
  { rewrite Ha. field. lra. }
  assert (Hfrac : 0 <= INR (a mod b) / INR b < 1).
  { split.
    - apply Rmult_le_pos; [exact Hr0|]. left. now apply Rinv_0_lt_compat.
    - apply (Rmult_lt_reg_r (INR b)); [exact HbR|].
      unfold Rdiv. rewrite Rmult_assoc, Rinv_l by lra. lra. }
  assert (Hq0 : 0 <= INR (a / b)) by apply pos_INR.
  unfold py_int. destruct (Rle_dec 0 (INR a / INR b)) as [_ | Hneg]; [|exfalso; lra].
  symmetry. apply Int_part_spec. rewrite <- INR_IZR_INZ. lra.
Qed.

Lemma default_fac : read get_default_parameters "Bayes.fac" = Ok (PyInt 128).
Proof. reflexivity. Qed.

Lemma default_Q : read get_default_parameters "CL.Q" = Ok (PyInt 115).
Proof. reflexivity. Qed.

Lemma default_f0 : read get_default_parameters "CL.f0" = Ok (PyFloat 58e3).
Proof. reflexivity. Qed.

Lemma default_Tmax :
  read get_default_parameters "Sim.Tmax" = Ok (PyFloat (4.096e-3 * 2)).
Proof. reflexivity. Qed.

Lemma inference_setup_succeeds_iff_witness :
  exists s, inference_setup 256 56000 get_default_parameters = Ok s.
Proof.
  apply (proj2 (inference_setup_succeeds_iff 256 56000 get_default_parameters)
           (PyInt 128) (PyInt 115) (PyFloat 58e3) (PyFloat (4.096e-3 * 2)));
    try reflexivity; cbn [num_val]; try lra.
  replace (IZR 128) with (INR 128) by (rewrite INR_IZR_INZ; reflexivity).
  rewrite py_int_INR_div by lia. change (256 / 128)%nat with 2%nat. lia.
Defined.

(** X15: with the dictionary of [get_default_parameters] the set-up of
    [BayesianInference] depends on the length of the signal only: a signal
    of fewer than 128 samples gives [N = 0] and [h = T/N] raises
    [ZeroDivisionError]; with 128 samples or more it returns with
    [N = size // 128], [Qi = 1/115] and [w = wd/58000], and the window is
    no longer than the signal. *)
Theorem default_parameters_setup (size : nat) (wd : R) :
  ((size < 128)%nat ->
   inference_setup size wd get_default_parameters
     = Raise (OtherError "ZeroDivisionError")) /\
  ((128 <= size)%nat ->
   exists s, inference_setup size wd get_default_parameters = Ok s /\
     ws_N s = Z.of_nat (size / 128) /\ (1 <= ws_N s)%Z /\
     (Z.to_nat (ws_N s) <= size)%nat /\
     ws_Qi s = 1 / 115 /\ ws_w s = wd / 58000).
Proof.
  assert (HN : py_int (INR size / num_val (PyInt 128)) = Z.of_nat (size / 128)).
  { cbn [num_val]. replace (IZR 128) with (INR 128) by (rewrite INR_IZR_INZ; reflexivity).
    apply py_int_INR_div. lia. }
  assert (Hstart :
            inference_setup size wd get_default_parameters =
            (T <- py_truediv (num_val (PyFloat (4.096e-3 * 2)) * num_val (PyFloat 58e3)
                              * 2 * PI) (num_val (PyInt 128)) ;;
             if Z.ltb (Z.of_nat (size / 128)) 0 then Raise (OtherError "ValueError")
             else h <- py_truediv T (IZR (Z.of_nat (size / 128))) ;;
                  Ok (mkSetup (1 / num_val (PyInt 115))
                        (wd * 1e-3 / (num_val (PyFloat 58e3) * 1e-3))
                        (Z.of_nat (size / 128)) T h))).
  { unfold inference_setup.
    rewrite default_fac, default_Q, default_f0, default_Tmax. cbn [bind].
    rewrite (py_truediv_nonzero 1) by (cbn [num_val]; lra). cbn [bind].
    rewrite (py_truediv_nonzero (wd * 1e-3)) by (cbn [num_val]; lra). cbn [bind].
    rewrite (py_truediv_nonzero (INR size)) by (cbn [num_val]; lra). cbn [bind].
    rewrite HN. reflexivity. }
  rewrite Hstart.
  rewrite py_truediv_nonzero by (cbn [num_val]; lra). cbn [bind].
  replace (Z.ltb (Z.of_nat (size / 128)) 0) with false
    by (symmetry; apply Z.ltb_ge; lia).
  split.
  - intros Hshort. rewrite Nat.div_small by exact Hshort.
    cbn [Z.of_nat]. now rewrite py_truediv_zero.
  - intros Hlong.
    assert (Hq : (1 <= size / 128)%nat).
    { apply Nat.div_le_lower_bound; lia. }
    assert (Hle : (size / 128 <= size)%nat).
    { apply Nat.Div0.div_le_upper_bound. lia. }
    rewrite py_truediv_nonzero by (apply not_0_IZR; lia).
    cbn [bind]. eexists. split; [reflexivity|].
    cbn [ws_N ws_Qi ws_w num_val].
    split; [reflexivity|]. split; [lia|]. split; [lia|].
    split; [reflexivity|]. field.
Qed.

Lemma default_parameters_setup_witness :
  inference_setup 100 56000 get_default_parameters
    = Raise (OtherError "ZeroDivisionError").
Proof.
  apply (default_parameters_setup 100 56000). lia.
Defined.

(** ** The default parameters in the pipeline *)

Lemma lookup_app_l x (f g : frame) v :
  lookup x f = Some v -> lookup x (f ++ g) = Some v.
Proof. intros H. now rewrite lookup_app, H. Qed.

Lemma lookup_app_r x (f g : frame) v :
  lookup x f = None -> lookup x g = Some v -> lookup x (f ++ g) = Some v.
Proof. intros Hf Hg. now rewrite lookup_app, Hf. Qed.

Lemma lookup_combine_present x (names : list string) (vals : list pyobj) :
  mentions names x = true -> length vals = length names ->
  exists v, lookup x (combine names vals) = Some v.
Proof.
  revert vals. induction names as [|k names IH]; intros vals Hin Hlen.
  - discriminate.
  - destruct vals as [|v vals]; [discriminate|]. cbn [combine lookup].
    unfold mentions in Hin. cbn [existsb] in Hin.
    destruct (String.eqb x k); [eauto|]. cbn [orb] in Hin.
    apply IH; [exact Hin | now injection Hlen].
Qed.

Lemma default_item key v :
  read get_default_parameters key = Ok v ->
  getitem (dict_of get_default_parameters) key = Ok (obj_of_num v).
Proof.
  unfold getitem, dict_of. generalize get_default_parameters.
  induction p as [|[k x] p IH]; cbn [read map lookup fst snd]; [discriminate|].
  destruct (String.eqb key k); [now intros [= ->] | exact IH].
Qed.

Section DefaultsInPipeline.

Variable builtin_names : list string.
Variable summary_setup : frame -> result (list pyobj).
Variable plot_first : frame -> result (list pyobj).
Variable fit_statistics : frame -> result (list pyobj).
Variable plot_last : frame -> result unit.
Variable force_expr : frame -> result pyobj.
Variable residual_expr : frame -> result pyobj.

Hypothesis S_not_builtin : mentions builtin_names "S" = false.
Hypothesis setup_returns :
  forall f, exists v, summary_setup f = Ok v /\ length v = length setup_names.
Hypothesis statistics_return :
  forall f, exists v, fit_statistics f = Ok v /\ length v = length stats_names.
Hypothesis force_returns : forall f, exists v, force_expr f = Ok v.
Hypothesis residual_returns : forall f, exists v, residual_expr f = Ok v.

(** X16: [get_default_parameters] holds every key that [processResults]
    reads.  Called without [graph] on the default dictionary, with
    numerical steps that return, [processResults] passes all six reads of
    the dictionary and ends in the [NameError] of [S]. *)
Theorem default_parameters_reach_S
    (R_H wd Rforce M Sig B m_phi y CC graph verbose : pyobj) :
  truthy graph = false ->
  processResults builtin_names summary_setup plot_first fit_statistics
    plot_last force_expr residual_expr
    (dict_of get_default_parameters) R_H wd Rforce M Sig B m_phi y CC graph verbose
  = Raise (NameError "S").
Proof.
  intros Hgraph. unfold processResults. cbv zeta.
  rewrite (default_item "Sim.Tmax" (PyFloat (4.096e-3 * 2)) eq_refl), bind_Ok.
  rewrite (default_item "Bayes.fac" (PyInt 128) eq_refl), bind_Ok.
  rewrite (default_item "CL.f0" (PyFloat 58e3) eq_refl), bind_Ok.
  rewrite (default_item "Sim.VAmp" (PyInt 3) eq_refl), bind_Ok.
  rewrite (default_item "Sim.Phasshift" (PyFloat 0.2) eq_refl), bind_Ok.
  match goal with
  | |- context [summary_setup ?f] => destruct (setup_returns f) as (v1 & -> & Hl1)
  end.
  rewrite bind_Ok, Hgraph, bind_Ok.
  match goal with
  | |- context [fit_statistics ?f] => destruct (statistics_return f) as (v3 & -> & Hl3)
  end.
  rewrite bind_Ok.
  rewrite (load_name_local builtin_names _ "phi" (obj_of_num (PyFloat 0.2)))
    by (do 3 apply lookup_app_l; reflexivity).
  rewrite bind_Ok.
  rewrite (load_name_local builtin_names _ "p" (dict_of get_default_parameters))
    by (do 3 apply lookup_app_l; reflexivity).
  rewrite bind_Ok, (default_item "Sim.snr" (PyInt 12) eq_refl), bind_Ok.
  destruct (lookup_combine_present "rrmse" stats_names v3 eq_refl Hl3) as (e3 & He3).
  rewrite (load_name_local builtin_names _ "rrmse" e3).
  2:{ apply lookup_app_r; [|exact He3].
      repeat apply lookup_app_none; try reflexivity.
      apply lookup_combine_absent, mentions_false. reflexivity. }
  rewrite bind_Ok.
  match goal with
  | |- context [force_expr ?f] => destruct (force_returns f) as (e4 & ->)
  end.
  rewrite bind_Ok.
  destruct (lookup_combine_present "R_seg" setup_names v1 eq_refl Hl1) as (e5 & He5).
  rewrite (load_name_local builtin_names _ "R_seg" e5).
  2:{ apply lookup_app_l, lookup_app_l. apply lookup_app_r; [reflexivity | exact He5]. }
  rewrite bind_Ok.
  match goal with
  | |- context [residual_expr ?f] => destruct (residual_returns f) as (e6 & ->)
  end.
  rewrite bind_Ok.
  destruct (lookup_combine_present "p1" stats_names v3 eq_refl Hl3) as (e7 & He7).
  rewrite (load_name_local builtin_names _ "p1" e7).
  2:{ apply lookup_app_r; [|exact He7].
      repeat apply lookup_app_none; try reflexivity.
      apply lookup_combine_absent, mentions_false. reflexivity. }
  rewrite bind_Ok.
  rewrite load_name_unbound; [reflexivity | | reflexivity | exact S_not_builtin].
  repeat apply lookup_app_none; try reflexivity;
    apply lookup_combine_absent, mentions_false; reflexivity.
Qed.

End DefaultsInPipeline.

Lemma default_parameters_reach_S_witness :
  processResults builtins_used setup_returning step_placeholder statistics_returning
    plot_placeholder expr_placeholder expr_placeholder
    (dict_of get_default_parameters) (PArray (zeros 1 256)) (PFloat 56000)
    (PArray (zeros 1 2000)) (PInt 5) (PArray (eye 5)) (PArray (zeros 4 3))
    (PArray (zeros 5 1)) (PArray (zeros 2 1)) (PArray (zeros 2 5))
    (PBool false) (PBool false)
  = Raise (NameError "S").
Proof.
  apply (default_parameters_reach_S builtins_used setup_returning step_placeholder
           statistics_returning plot_placeholder expr_placeholder expr_placeholder).
  - reflexivity.
  - intros f. eexists. split; reflexivity.
  - intros f. eexists. split; reflexivity.
  - intros f. eexists. reflexivity.
  - intros f. eexists. reflexivity.
  - reflexivity.
Defined.

(** ** The recovered force *)

(** X18: with the basis of [_B_phin] and a mean vector of [M = 2+n+1]
    rows, the recovered force [np.matmul(B[1::2, :], m_phi[2:M+1])] is a
    column of [N] values, and its value at sample [k] is the polynomial
    [sum_i m_phi[2+i] * sin(w*tt[k]+phi)^i], [i = 0..n]: the slice bound
    [M+1], one past the end of [m_phi], selects the [n+1] force
    coefficients. *)
Theorem recovered_force_is_polynomial
    (phi w : R) (tt : list R) (n : nat) (m_phi : matrix) :
  nrows m_phi = (2 + n + 1)%nat ->
  let y1 := recovered_force (_B_phin phi w tt n) m_phi (2 + n + 1) in
  nrows y1 = length tt /\ ncols y1 = ncols m_phi /\
  nrows (row_slice m_phi 2 (2 + n + 1 + 1)) = (n + 1)%nat /\
  (forall k, (k < length tt)%nat ->
     at_ y1 k 0 =
     rsum (n + 1) (fun i => (sin (w * nth k tt 0 + phi)) ^ i * at_ m_phi (2 + i) 0)).
Proof.
  intros Hrows. cbn zeta.
  destruct (B_phin_shape phi w tt n) as (HrB & HcB).
  destruct (B_phin_shape_rows_aux phi w tt n) as (_ & Hodd).
  unfold recovered_force.
  cbn [nrows ncols matmul odd_rows row_slice at_].
  rewrite HrB, HcB, Hrows.
  divmod2 (2 * length tt)%nat.
  split; [rewrite Nat.div2_div; lia|]. split; [reflexivity|]. split; [lia|].
  intros k Hk. apply rsum_ext. intros i Hi.
  rewrite Hodd by lia. reflexivity.
Qed.

Lemma recovered_force_is_polynomial_witness :
  nrows (recovered_force (_B_phin 0 1 [0; 1] 2) (column [0; 0; 1; 2; 3]) (2 + 2 + 1))
  = length [0; 1].
Proof.
  apply (recovered_force_is_polynomial 0 1 [0; 1] 2 (column [0; 0; 1; 2; 3])).
  reflexivity.
Defined.

(** ** A perfect fit *)

Section PerfectFit.

Variable polyfit : list R -> matrix -> nat -> matrix.

(** X19: when [SStotal] is a non-zero number, [rsq] is exactly 1 if and
    only if the quadratic fit reproduces every entry of the recovered
    force, that is, if and only if [SSresid] is zero. *)
Theorem rsq_is_one_iff_exact_fit (x1 : list R) (y1 : matrix) (s : R) :
  SStotal y1 = Fin s -> s <> 0 ->
  (rsq polyfit x1 y1 = Fin 1 <->
   forall r, (r < nrows y1)%nat ->
     at_ (polyval (polyfit x1 y1 2) (column x1)) r 0 = at_ y1 r 0).
Proof.
  intros Htot Hs. unfold rsq. rewrite Htot, np_div_fin by exact Hs.
  cbn [np_sub].
  assert (Hres : SSresid polyfit x1 y1 = 0 <->
            forall r, (r < nrows y1)%nat ->
              at_ (polyval (polyfit x1 y1 2) (column x1)) r 0 = at_ y1 r 0).
  { unfold SSresid. cbn zeta. cbn [msub nrows at_]. split.
    - intros H0 r Hr.
      pose proof (rsum_zero_terms (nrows y1)
                    (fun r => (at_ y1 r 0
                               - at_ (polyval (polyfit x1 y1 2) (column x1)) r 0) ^ 2)
                    (fun k _ => pow2_ge_0 _) H0 r Hr) as Hz.
      cbn beta in Hz. rewrite <- Rsqr_pow2 in Hz. apply Rsqr_0_uniq in Hz. lra.
    - intros Hfit. apply rsum_zero. intros r Hr. rewrite Hfit by exact Hr.
      unfold Rminus. rewrite Rplus_opp_r. apply pow_i. lia. }
  rewrite <- Hres. split.
  - intros [= H1].
    assert (Hq : SSresid polyfit x1 y1 / s = 0) by lra.
    apply Rmult_integral in Hq. destruct Hq as [Hq | Hq]; [exact Hq|].
    exfalso. now apply (Rinv_neq_0_compat s).
  - intros ->. f_equal. unfold Rdiv. rewrite Rmult_0_l. lra.
Qed.

End PerfectFit.

Lemma rsq_is_one_iff_exact_fit_witness :
  let y1 := column [1; 3] in
  rsq polyfit_zero [0; 1] y1 = Fin 1 <->
  forall r, (r < nrows y1)%nat ->
    at_ (polyval (polyfit_zero [0; 1] y1 2) (column [0; 1])) r 0 = at_ y1 r 0.
Proof.
  intros y1. unfold y1.
  assert (Hsize : INR (size (column [1; 3])) <> 0) by (cbn; lra).
  apply (rsq_is_one_iff_exact_fit polyfit_zero [0; 1] (column [1; 3]) 1).
  - unfold SStotal, np_var, np_mean. rewrite !np_div_fin by exact Hsize.
    cbn [np_mul]. f_equal. cbn. lra.
  - lra.
Defined.

(** ** Position datasets *)

Lemma nth_zeros {A : Type} (l : list A) c : nth c (map (fun _ => 0) l) 0 = 0.
Proof.
  revert c. induction l as [|a l IH]; intros [|c]; cbn [map nth]; auto.
Qed.

Section PositionDatasetFacts.

Variable dataset : Type.
Variable slicing : Type.
Variable makePositionMat : list nat -> result matrix.
Variable getPositionSlicing : list string -> result slicing.
Variable MicroDataset : string -> matrix -> string -> dataset.
Variable set_labels : dataset -> slicing -> dataset.
Variable set_units : dataset -> list string -> dataset.

Local Abbreviation build :=
  (_buildpositiondatasets dataset slicing makePositionMat getPositionSlicing
     MicroDataset set_labels set_units).

(** X20: the default [labels=None] cannot be used: line 105 iterates over
    the integer [len(dimensions)].  No call without labels returns; once
    the checks of [steps] and [initial_values] pass, the call raises
    [TypeError]. *)
Theorem labels_default_never_returns
    (dimensions : list nat) (steps initial_values : option (list R))
    (units : option (list string)) :
  (forall ds, build dimensions steps initial_values None units <> Ok ds) /\
  ((steps = None \/ exists s, steps = Some s /\ length s = length dimensions) ->
   (initial_values = None \/
    exists v, initial_values = Some v /\ length v = length dimensions) ->
   build dimensions steps initial_values None units = Raise int_not_iterable).
Proof.
  unfold _buildpositiondatasets. split.
  - intros ds.
    destruct steps as [s|];
      [destruct (negb (Nat.eqb (length s) (length dimensions))); [discriminate|]|];
      (destruct initial_values as [v|];
       [destruct (negb (Nat.eqb (length v) (length dimensions))); discriminate
       | discriminate]).
  - intros [-> | (s & -> & Hs)] [-> | (v & -> & Hv)];
      rewrite ?Hs, ?Hv, ?Nat.eqb_refl; reflexivity.
Qed.

(** X21: the lengths are checked before any work is done, in the order
    steps, initial values, labels: a mismatch raises the [ValueError] of
    the first argument that fails, whatever the later arguments are and
    whatever [makePositionMat] and [getPositionSlicing] would do. *)
Theorem length_checks_come_first
    (dimensions : list nat) (steps initial_values : option (list R))
    (labels units : option (list string)) :
  (forall s, steps = Some s -> length s <> length dimensions ->
     build dimensions steps initial_values labels units = Raise steps_mismatch) /\
  (forall v, (steps = None \/ exists s, steps = Some s /\ length s = length dimensions) ->
     initial_values = Some v -> length v <> length dimensions ->
     build dimensions steps initial_values labels units = Raise initial_mismatch) /\
  (forall l, (steps = None \/ exists s, steps = Some s /\ length s = length dimensions) ->
     (initial_values = None \/
      exists v, initial_values = Some v /\ length v = length dimensions) ->
     labels = Some l -> length l <> length dimensions ->
     build dimensions steps initial_values labels units = Raise labels_mismatch).
Proof.
  unfold _buildpositiondatasets. split; [|split].
  - intros s -> Hs.
    now replace (Nat.eqb (length s) (length dimensions)) with false
      by (symmetry; now apply Nat.eqb_neq).
  - intros v [-> | (s & -> & Hs)] -> Hv; rewrite ?Hs, ?Nat.eqb_refl;
      now replace (Nat.eqb (length v) (length dimensions)) with false
        by (symmetry; now apply Nat.eqb_neq).
  - intros l [-> | (s & -> & Hs)] [-> | (v & -> & Hv)] -> Hl;
      rewrite ?Hs, ?Hv, ?Nat.eqb_refl;
      now replace (Nat.eqb (length l) (length dimensions)) with false
        by (symmetry; now apply Nat.eqb_neq).
Qed.

Lemma build_after_checks
    (dimensions : list nat) (steps initial_values : option (list R))
    (l : list string) (units : option (list string))
    (pos_inds pos_vals : matrix) (sl : slicing) :
  (steps = None \/ exists s, steps = Some s /\ length s = length dimensions) ->
  (initial_values = None \/
   exists v, initial_values = Some v /\ length v = length dimensions) ->
  length l = length dimensions ->
  makePositionMat dimensions = Ok pos_inds ->
  position_values (defaulted dimensions initial_values) (defaulted dimensions steps)
    pos_inds = Ok pos_vals ->
  getPositionSlicing l = Ok sl ->
  build dimensions steps initial_values (Some l) units =
  let ds_pos_inds := set_labels (MicroDataset "Position_Indices" pos_inds "uint32") sl in
  let ds_pos_vals := set_labels (MicroDataset "Position_Values" pos_vals "float32") sl in
  match units with
  | None => Ok (ds_pos_inds, ds_pos_vals)
  | Some u =>
      if negb (Nat.eqb (length u) (length dimensions))
      then Raise labels_mismatch
      else Ok (set_units ds_pos_inds u, set_units ds_pos_vals u)
  end.
Proof.
  intros Hsteps Hinit Hl Hmat Hvals Hslice. unfold _buildpositiondatasets.
  destruct Hsteps as [-> | (s & -> & Hs)], Hinit as [-> | (v & -> & Hv)];
    cbn [defaulted] in Hvals;
    rewrite ?Hs, ?Hv, Hl, ?Nat.eqb_refl; cbn [negb bind];
    rewrite Hmat; cbn [bind]; rewrite Hvals; cbn [bind]; rewrite Hslice;
    reflexivity.
Qed.

(** X22: [units] is looked at only after both datasets have been built.
    With valid [steps], [initial_values] and [labels] and helpers that
    return, the call returns the two datasets, labelled, when [units] is
    [None]; it returns them with the units attached when [units] has one
    entry per dimension; and otherwise it raises the [ValueError] whose
    message speaks of the labels. *)
Theorem units_are_checked_last
    (dimensions : list nat) (steps initial_values : option (list R))
    (l : list string) (pos_inds pos_vals : matrix) (sl : slicing) :
  (steps = None \/ exists s, steps = Some s /\ length s = length dimensions) ->
  (initial_values = None \/
   exists v, initial_values = Some v /\ length v = length dimensions) ->
  length l = length dimensions ->
  makePositionMat dimensions = Ok pos_inds ->
  position_values (defaulted dimensions initial_values) (defaulted dimensions steps)
    pos_inds = Ok pos_vals ->
  getPositionSlicing l = Ok sl ->
  let ds_pos_inds := set_labels (MicroDataset "Position_Indices" pos_inds "uint32") sl in
  let ds_pos_vals := set_labels (MicroDataset "Position_Values" pos_vals "float32") sl in
  build dimensions steps initial_values (Some l) None = Ok (ds_pos_inds, ds_pos_vals) /\
  (forall u, length u = length dimensions ->
     build dimensions steps initial_values (Some l) (Some u)
       = Ok (set_units ds_pos_inds u, set_units ds_pos_vals u)) /\
  (forall u, length u <> length dimensions ->
     build dimensions steps initial_values (Some l) (Some u) = Raise labels_mismatch).
Proof.
  intros Hsteps Hinit Hl Hmat Hvals Hslice. cbn zeta.
  split; [|split].
  - now rewrite (build_after_checks _ _ _ _ _ _ _ _ Hsteps Hinit Hl Hmat Hvals Hslice).
  - intros u Hu.
    rewrite (build_after_checks _ _ _ _ _ _ _ _ Hsteps Hinit Hl Hmat Hvals Hslice).
    cbn zeta. now rewrite Hu, Nat.eqb_refl.
  - intros u Hu.
    rewrite (build_after_checks _ _ _ _ _ _ _ _ Hsteps Hinit Hl Hmat Hvals Hslice).
    cbn zeta.
    now replace (Nat.eqb (length u) (length dimensions)) with false
      by (symmetry; now apply Nat.eqb_neq).
Qed.

(** X23: leaving [steps] out is the same as passing a step of zero for
    every dimension (the docstring announces a step of one): the call
    gives the same outcome, and for position indices with one column per
    dimension every row of the position values repeats the initial
    values. *)
Theorem default_steps_are_zero
    (dimensions : list nat) (initial : list R) (labels units : option (list string))
    (pos_inds : matrix) :
  length initial = length dimensions ->
  ncols pos_inds = length dimensions ->
  build dimensions None (Some initial) labels units =
  build dimensions (Some (map (fun _ => 0) dimensions)) (Some initial) labels units /\
  exists pos_vals,
    position_values initial (map (fun _ => 0) dimensions) pos_inds = Ok pos_vals /\
    nrows pos_vals = nrows pos_inds /\ ncols pos_vals = length dimensions /\
    forall r c, (c < length dimensions)%nat -> at_ pos_vals r c = nth c initial 0.
Proof.
  intros Hinit Hcols. split.
  - unfold _buildpositiondatasets. now rewrite length_map, Nat.eqb_refl.
  - unfold position_values. rewrite length_map, Hcols, Nat.eqb_refl. cbn [orb].
    eexists. split; [reflexivity|]. split; [reflexivity|]. split.
    + cbn [ncols]. now destruct (Nat.eqb (length dimensions) 1).
    + intros r c Hc. cbn [at_].
      assert (Hidx : bidx (length dimensions) c = c).
      { unfold bidx. destruct (Nat.eqb (length dimensions) 1) eqn:E; [|reflexivity].
        apply Nat.eqb_eq in E. lia. }
      rewrite Hidx.
      rewrite nth_zeros. lra.
Qed.

End PositionDatasetFacts.

Lemma labels_default_never_returns_witness :
  _buildpositiondatasets dataset_sample (list string) positions_sample
    (fun l => Ok l) (fun name data _ => (name, data)) (fun d _ => d) (fun d _ => d)
    [2%nat; 3%nat] None None None None
  = Raise int_not_iterable.
Proof.
  apply (labels_default_never_returns dataset_sample (list string) positions_sample
           (fun l => Ok l) (fun name data _ => (name, data)) (fun d _ => d) (fun d _ => d)
           [2%nat; 3%nat] None None None);
    left; reflexivity.
Defined.

Lemma length_checks_come_first_witness :
  _buildpositiondatasets dataset_sample (list string) positions_sample
    (fun l => Ok l) (fun name data _ => (name, data)) (fun d _ => d) (fun d _ => d)
    [2%nat; 3%nat] (Some [1]) None (Some ["x"; "y"]%string) None
  = Raise steps_mismatch.
Proof.
  apply (length_checks_come_first dataset_sample (list string) positions_sample
           (fun l => Ok l) (fun name data _ => (name, data)) (fun d _ => d) (fun d _ => d)
           [2%nat; 3%nat] (Some [1]) None (Some ["x"; "y"]%string) None) with (s := [1]).
  - reflexivity.
  - cbn. lia.
Defined.

Lemma units_are_checked_last_witness :
  _buildpositiondatasets dataset_sample (list string) positions_sample
    (fun l => Ok l) (fun name data _ => (name, data)) (fun d _ => d) (fun d _ => d)
    [2%nat; 3%nat] None None (Some ["x"; "y"]%string) (Some ["m"]%string)
  = Raise labels_mismatch.
Proof.
  eapply (units_are_checked_last dataset_sample (list string) positions_sample
            (fun l => Ok l) (fun name data _ => (name, data)) (fun d _ => d) (fun d _ => d)
            [2%nat; 3%nat] None None ["x"; "y"]%string).
  - left. reflexivity.
  - left. reflexivity.
  - reflexivity.
  - reflexivity.
  - reflexivity.
  - reflexivity.
  - cbn. lia.
Defined.

Lemma default_steps_are_zero_witness :
  exists pos_vals,
    position_values [5; 7] (map (fun _ => 0) [2%nat; 3%nat]) (ones 4 2) = Ok pos_vals /\
    nrows pos_vals = nrows (ones 4 2) /\ ncols pos_vals = length [2%nat; 3%nat] /\
    forall r c, (c < length [2%nat; 3%nat])%nat -> at_ pos_vals r c = nth c [5; 7] 0.
Proof.
  apply (default_steps_are_zero dataset_sample (list string) positions_sample
           (fun l => Ok l) (fun name data _ => (name, data)) (fun d _ => d) (fun d _ => d)
           [2%nat; 3%nat] [5; 7] None None (ones 4 2));
    reflexivity.
Defined.

(** ** The objective and the signs of the noise scales *)

(** X24: the objective reads [sig] and [gam] only through [1/sig/sig],
    [1/gam/gam], [gam**2] and [sig**2]: it takes the same value at
    [(-sig, -gam, phi)] as at [(sig, gam, phi)].  The minimization is
    unconstrained in these two components, so a returned [pp1] with a
    negative noise scale stands for the same fit as its absolute
    value. *)
Theorem objective_is_even_in_noise_scales
    (inv : bool -> matrix -> result matrix)
    (lstsq : matrix -> matrix -> R -> result matrix)
    (eig : matrix -> result eigvals) (float_complex : matrix -> result npfloat)
    (sig gam phi w : R) (tt : list R) (AA a1 a2 y : matrix)
    (n M : nat) (h : R) (m0 : matrix) (sigi : R) (aa : nat) :
  sig <> 0 -> gam <> 0 ->
  _mmlenn inv lstsq eig float_complex (mkHyper (- sig) (- gam) phi)
    w tt AA a1 a2 y n M h m0 sigi aa =
  _mmlenn inv lstsq eig float_complex (mkHyper sig gam phi)
    w tt AA a1 a2 y n M h m0 sigi aa.
Proof.
  intros Hsig Hgam. unfold _mmlenn, mmlenn_posterior.
  cbn [pp_sig pp_gam pp_phi]. cbv zeta.
  assert (HP : prior_precision sigi (- sig) n aa = prior_precision sigi sig n aa).
  { unfold prior_precision. do 2 f_equal. apply map_ext. intros k.
    f_equal. field. exact Hsig. }
  assert (HG : noise_precision (- gam) (size y) = noise_precision gam (size y)).
  { unfold noise_precision. f_equal. field. exact Hgam. }
  rewrite HP, HG.
  rewrite (proj2 (Reqb_false (- sig) 0)) by lra.
  rewrite (proj2 (Reqb_false sig 0) Hsig).
  rewrite (proj2 (Reqb_false (- gam) 0)) by lra.
  rewrite (proj2 (Reqb_false gam 0) Hgam).
  destruct (Reqb sigi 0); [reflexivity|].
  destruct (inv (negb false) (prior_precision sigi sig n aa)) as [C0 | e];
    [rewrite !bind_Ok | reflexivity].
  destruct (np_design_CC AA a1 a2 (_B_phin phi w tt n) h) as [CC | e];
    [rewrite !bind_Ok | reflexivity].
  destruct (posterior_Sig lstsq (negb (false || false)) (prior_precision sigi sig n aa)
              (noise_precision gam (size y)) CC M) as [Sig | e];
    [rewrite !bind_Ok | reflexivity].
  destruct (posterior_mean Sig (prior_precision sigi sig n aa)
              (noise_precision gam (size y)) CC y m0) as [m_phi | e];
    [rewrite !bind_Ok | reflexivity].
  destruct (Rleb (- PI) phi && Rleb phi 0)%bool; [|reflexivity].
  unfold mmlenn_out.
  replace ((- sig) ^ 2) with (sig ^ 2) by ring.
  replace ((- gam) ^ 2) with (gam ^ 2) by ring.
  reflexivity.
Qed.

Lemma objective_is_even_in_noise_scales_witness :
  mmlenn_sample (mkHyper (- 1) (- (/ 10)) 0) = mmlenn_sample (mkHyper 1 (/ 10) 0).
Proof.
  apply (objective_is_even_in_noise_scales inv_sample lstsq_sample eig_sample
           float_complex_sample 1 (/ 10) 0);
    lra.
Defined.
